(** * simple-versioning: the next version tag of a git repository

    A shallow embedding of [main.py].  The script reads the tag references
    of a repository, parses the ones that follow the naming convention
    [prefix ++ version ++ suffix], optionally restricts them to one major
    (and minor) line, and renders the tag of the next patch release.

    Layout of the development:
    - [PyStr]: the handful of Python [str] methods the script calls;
    - [Semver]: the part of the third-party [semver] package the script
      uses ([Version], [Version.parse], comparison, [bump_patch], [str]);
    - [PySet]: Python's [set] and [max];
    - [Proc]: a small monad that records the observable effects of the
      process (git operations, logging, printing) and how it ends;
    - [Main]: the functions of [main.py], in source order;
    - [Spec]: the vocabulary the properties are stated in;
    - facts about each function, and the properties of the version
      selector (the theorems whose names start with [C1] to [C10]).

    Python strings are modelled by [string], i.e. sequences of characters
    with code points below 256.  Python integers are unbounded: [Z] for
    the command-line filters, [N] for the components of a [Version], which
    the [semver] constructor keeps non-negative. *)

From Stdlib Require Import String Ascii List Bool Arith NArith ZArith Lia.
From Stdlib Require Import DecimalString DecimalN.
Import ListNotations.

#[local] Open Scope string_scope.

(* ===================================================================== *)
(** ** Python [str] methods *)
(* ===================================================================== *)

Module PyStr.

(** [s.startswith(p)] *)
Definition startswith (s p : string) : bool := String.prefix p s.

(** [s.endswith(p)]: the last [len(p)] characters of [s] are [p]. *)
Definition endswith (s p : string) : bool :=
  if (String.length s <? String.length p)%nat then false
  else String.eqb
         (substring (String.length s - String.length p) (String.length p) s) p.

(** [new.join(list(s))] followed by [new]: what [replace] inserts after
    every character when the pattern is empty. *)
Fixpoint intersperse_after (s new : string) : string :=
  match s with
  | EmptyString => EmptyString
  | String c rest => String c (new ++ intersperse_after rest new)
  end.

(** The scan of [s.replace(old, new)] for a non-empty [old]: occurrences
    are found from the left and do not overlap.  [skip] counts the
    characters of the occurrence just replaced that are still to be
    dropped. *)
Fixpoint replace_scan (skip : nat) (s old new : string) : string :=
  match s with
  | EmptyString => EmptyString
  | String c rest =>
      match skip with
      | S k => replace_scan k rest old new
      | O =>
          if startswith s old
          then new ++ replace_scan (String.length old - 1) rest old new
          else String c (replace_scan 0 rest old new)
      end
  end.

(** [s.replace(old, new)]: every occurrence of [old] is replaced, not
    only one at an end of [s].  For the empty pattern Python inserts [new]
    before every character and at the end. *)
Definition replace (s old new : string) : string :=
  match old with
  | EmptyString => new ++ intersperse_after s new
  | _ => replace_scan 0 s old new
  end.

(** Characters [str.strip()] removes (code points below 256). *)
Definition is_space (c : ascii) : bool :=
  let n := nat_of_ascii c in
  (((9 <=? n) && (n <=? 13)) || ((28 <=? n) && (n <=? 32))
   || (n =? 133) || (n =? 160))%nat.

Fixpoint lstrip (s : string) : string :=
  match s with
  | EmptyString => EmptyString
  | String c rest => if is_space c then lstrip rest else s
  end.

Fixpoint string_rev (s : string) : string :=
  match s with
  | EmptyString => EmptyString
  | String c rest => string_rev rest ++ String c EmptyString
  end.

(** [s.strip()] *)
Definition strip (s : string) : string :=
  string_rev (lstrip (string_rev (lstrip s))).

(** ['%d' % n] and the [{n}] of an f-string, for a non-negative [n]. *)
Definition str_of_int (n : N) : string :=
  NilZero.string_of_uint (N.to_uint n).

Definition is_digit (c : ascii) : bool :=
  let n := nat_of_ascii c in ((48 <=? n) && (n <=? 57))%nat.

Definition is_alpha (c : ascii) : bool :=
  let n := nat_of_ascii c in
  (((65 <=? n) && (n <=? 90)) || ((97 <=? n) && (n <=? 122)))%nat.

(** [int(s)] on a string of decimal digits; [None] for [ValueError]. *)
Definition int_of_str (s : string) : option N :=
  option_map N.of_uint (NilZero.uint_of_string s).

(** The longest prefix of [s] made of characters in the class [p], and
    what follows it. *)
Fixpoint span (p : ascii -> bool) (s : string) : string * string :=
  match s with
  | EmptyString => (EmptyString, EmptyString)
  | String c rest =>
      if p c then let (a, b) := span p rest in (String c a, b)
      else (EmptyString, s)
  end.

(** [s.split(sep)] for a one-character separator. *)
Fixpoint split (sep : ascii) (s : string) : list string :=
  match s with
  | EmptyString => [EmptyString]
  | String c rest =>
      if Ascii.eqb c sep then EmptyString :: split sep rest
      else match split sep rest with
           | [] => [String c EmptyString]
           | w :: ws => String c w :: ws
           end
  end.

Fixpoint forallb_str (p : ascii -> bool) (s : string) : bool :=
  match s with
  | EmptyString => true
  | String c rest => p c && forallb_str p rest
  end.

(** Comparison of two [str] by code points, as [<] and [>] on [str]. *)
Definition str_compare (a b : string) : comparison := String.compare a b.

End PyStr.

(* ===================================================================== *)
(** ** The [semver] package *)
(* ===================================================================== *)

(** [semver] is a third-party dependency of the script, not part of the
    repository.  The definitions below follow version 3 of the package
    ([semver.Version]), for the members [main.py] uses. *)

Module Semver.
Import PyStr.

Record Version : Type := mkVersion {
  major : N;
  minor : N;
  patch : N;
  prerelease : option string;
  build : option string
}.

(** [Version(major, minor, patch)] called with integers: the constructor
    raises [ValueError] ("... is negative. A version can only be
    positive.") when one of them is negative.  [None] stands for the
    exception. *)
Definition Version_init (major minor patch : Z) : option Version :=
  if ((major <? 0) || (minor <? 0) || (patch <? 0))%Z then None
  else Some (mkVersion (Z.to_N major) (Z.to_N minor) (Z.to_N patch) None None).

Definition newline : ascii := ascii_of_nat 10.

(** The pattern of [Version.parse] ends in [$], which also matches just
    before a newline that ends the string. *)
Definition chomp (s : string) : string :=
  if endswith s (String newline EmptyString)
  then substring 0 (String.length s - 1) s
  else s.

(** A string of two characters or more that starts with ["0"]. *)
Definition leading_zero (w : string) : bool :=
  match w with
  | String c (String _ _) => Ascii.eqb c "0"
  | _ => false
  end.

(** The group [0|[1-9]\d*] at the head of [s]: the number and what follows
    it.  The pattern continues with a character that is not a digit, so
    the group takes the whole run of digits, and a run with a leading zero
    other than ["0"] itself cannot match. *)
Definition numeric (s : string) : option (N * string) :=
  let (ds, rest) := span is_digit s in
  match ds with
  | EmptyString => None
  | _ => if leading_zero ds then None
         else match int_of_str ds with
              | Some n => Some (n, rest)
              | None => None
              end
  end.

(** [[0-9a-zA-Z-]] *)
Definition is_idchar (c : ascii) : bool :=
  is_digit c || is_alpha c || Ascii.eqb c "-".

Definition nonempty (s : string) : bool :=
  match s with EmptyString => false | _ => true end.

(** One dot-separated identifier of the prerelease part:
    [0|[1-9]\d*|\d*[a-zA-Z-][0-9a-zA-Z-]*]. *)
Definition prerelease_id (w : string) : bool :=
  nonempty w && forallb_str is_idchar w
  && (negb (forallb_str is_digit w) || negb (leading_zero w)).

(** One dot-separated identifier of the build part: [[0-9a-zA-Z-]+]. *)
Definition build_id (w : string) : bool :=
  nonempty w && forallb_str is_idchar w.

(** A literal character [c] of the pattern at the head of [s]: what
    follows it. *)
Definition expect (c : ascii) (s : string) : option string :=
  match s with
  | String x t => if Ascii.eqb x c then Some t else None
  | EmptyString => None
  end.

(** [(?:-(?P<prerelease>...))?(?:\+(?P<build>...))?$] on what follows
    the patch number.  The prerelease group cannot hold a [+], so it runs
    up to the first one or to the end. *)
Definition parse_tail (s : string) : option (option string * option string) :=
  let (pre, s1) :=
    match expect "-" s with
    | Some t =>
        let (p, r) := span (fun c => negb (Ascii.eqb c "+")) t in (Some p, r)
    | None => (None, s)
    end in
  let pre_ok :=
    match pre with
    | Some p => forallb prerelease_id (split "." p)
    | None => true
    end in
  match s1 with
  | EmptyString => if pre_ok then Some (pre, None) else None
  | _ =>
      match expect "+" s1 with
      | Some t =>
          if pre_ok && forallb build_id (split "." t)
          then Some (pre, Some t) else None
      | None => None
      end
  end.

(** [Version.parse(version)]; [None] stands for the [ValueError] raised
    when the string is not a valid semantic version. *)
Definition parse (version : string) : option Version :=
  match numeric (chomp version) with
  | Some (ma, s0) =>
      match expect "." s0 with
      | Some s1 =>
          match numeric s1 with
          | Some (mi, s1') =>
              match expect "." s1' with
              | Some s2 =>
                  match numeric s2 with
                  | Some (pa, s3) =>
                      match parse_tail s3 with
                      | Some (pre, bld) => Some (mkVersion ma mi pa pre bld)
                      | None => None
                      end
                  | None => None
                  end
              | None => None
              end
          | None => None
          end
      | None => None
      end
  | None => None
  end.

(** Comparison of the tuples [(major, minor, patch)]. *)
Definition cmp_triple (a b : Version) : comparison :=
  match N.compare (major a) (major b) with
  | Eq => match N.compare (minor a) (minor b) with
          | Eq => N.compare (patch a) (patch b)
          | c => c
          end
  | c => c
  end.

(** A prerelease identifier after [convert]: an [int] when it consists of
    digits, the text itself otherwise. *)
Inductive prerelease_part : Type :=
| PInt (n : N)
| PStr (s : string).

(** [int(x) if re.match(r"^\d+$", x) else x] *)
Definition convert (text : string) : prerelease_part :=
  let t := chomp text in
  if nonempty t && forallb_str is_digit t
  then match int_of_str t with
       | Some n => PInt n
       | None => PStr text
       end
  else PStr text.

(** The converted identifiers of [key.split(".")]. *)
Definition split_key (key : string) : list prerelease_part :=
  map convert (split "." key).

Definition cmp_prerelease_tag (a b : prerelease_part) : comparison :=
  match a, b with
  | PInt x, PInt y => N.compare x y
  | PInt _, PStr _ => Lt
  | PStr _, PInt _ => Gt
  | PStr x, PStr y => str_compare x y
  end.

(** The loop of [_nat_cmp] over [zip(a_parts, b_parts)]; [Eq] when the
    shorter list is exhausted without a difference. *)
Fixpoint zip_cmp (xs ys : list prerelease_part) : comparison :=
  match xs, ys with
  | x :: xs', y :: ys' =>
      match cmp_prerelease_tag x y with
      | Eq => zip_cmp xs' ys'
      | c => c
      end
  | _, _ => Eq
  end.

Definition or_empty (o : option string) : string :=
  match o with Some s => s | None => EmptyString end.

(** [_nat_cmp(a, b)]; the final tie-break compares the lengths of the two
    strings. *)
Definition nat_cmp (a b : option string) : comparison :=
  let a := or_empty a in
  let b := or_empty b in
  match zip_cmp (split_key a) (split_key b) with
  | Eq => Nat.compare (String.length a) (String.length b)
  | c => c
  end.

(** [a.compare(b)]: [Lt], [Eq], [Gt] for -1, 0, 1.  The build part takes
    no part in it. *)
Definition compare (a b : Version) : comparison :=
  match cmp_triple a b with
  | Eq =>
      match nat_cmp (prerelease a) (prerelease b) with
      | Eq => Eq
      | rccmp =>
          if negb (nonempty (or_empty (prerelease a))) then Gt
          else if negb (nonempty (or_empty (prerelease b))) then Lt
          else rccmp
      end
  | c => c
  end.

(** [a > b] *)
Definition gt (a b : Version) : bool :=
  match compare a b with Gt => true | _ => false end.

(** [a == b] *)
Definition eq (a b : Version) : bool :=
  match compare a b with Eq => true | _ => false end.

(** [v.to_tuple()[:4]], the value [hash(v)] is computed from. *)
Definition hash_key (v : Version) : N * N * N * option string :=
  (major v, minor v, patch v, prerelease v).

(** [hash(a) == hash(b)], for a hash without collisions. *)
Definition hash_eqb (a b : Version) : bool :=
  let '(ma, mi, pa, pre) := hash_key a in
  let '(ma', mi', pa', pre') := hash_key b in
  N.eqb ma ma' && N.eqb mi mi' && N.eqb pa pa'
  && match pre, pre' with
     | Some x, Some y => String.eqb x y
     | None, None => true
     | _, _ => false
     end.

(** [v.bump_patch()]: a new version, prerelease and build dropped. *)
Definition bump_patch (v : Version) : Version :=
  mkVersion (major v) (minor v) (patch v + 1) None None.

(** [str(v)] *)
Definition to_str (v : Version) : string :=
  str_of_int (major v) ++ "." ++ str_of_int (minor v) ++ "."
  ++ str_of_int (patch v)
  ++ (match prerelease v with
      | Some p => if nonempty p then "-" ++ p else ""
      | None => ""
      end)
  ++ (match build v with
      | Some b => if nonempty b then "+" ++ b else ""
      | None => ""
      end).

End Semver.

(* ===================================================================== *)
(** ** Python [set] and [max] *)
(* ===================================================================== *)

(** A [set] is kept as the list of its elements in insertion order.  An
    element is found in a set when an element with the same hash that
    compares equal is there; [same] is that test.  The order in which
    Python iterates over a set is not specified: what is proved below
    about the members of a set, and about the version selected from it,
    holds for every order of the list. *)

Module PySet.
Section Generic.
Context {A : Type} (same : A -> A -> bool).

(** [x in s] *)
Definition contains (s : list A) (x : A) : bool := existsb (same x) s.

(** [s.add(x)]: nothing happens when [x] is already in [s]. *)
Definition add (s : list A) (x : A) : list A :=
  if contains s x then s else (s ++ [x])%list.

End Generic.

Section Max.
Context {A : Type} (gt : A -> A -> bool).

(** The loop of [max(iterable)]: the running maximum is replaced when an
    item is greater than it. *)
Fixpoint max_from (cur : A) (l : list A) : A :=
  match l with
  | [] => cur
  | x :: rest => max_from (if gt x cur then x else cur) rest
  end.

(** [max(s)]; [None] stands for the [ValueError] on an empty argument. *)
Definition max (l : list A) : option A :=
  match l with
  | [] => None
  | x :: rest => Some (max_from x rest)
  end.

End Max.
End PySet.

(* ===================================================================== *)
(** ** The process: effects, termination *)
(* ===================================================================== *)

(** What the script does to the outside world is kept as a trace of
    events, in program order.  The git operations are taken to succeed;
    [references repo] is the list the repository hands out when
    [find_previous_versions] reads it, after any fetch and pull. *)

Module Proc.

Inductive level : Type := INFO | WARNING | ERROR.

Inductive event : Type :=
| Fetch (remote : string)
| Pull (remote : string)
| CreateTag (name : string)
| Push (remote : string) (tag : string)
| Log (lvl : level) (msg : string)
| Print (line : string).

Inductive exn : Type := ValueError | TypeError.

(** How a computation ends: with a value, by [sys.exit(code)], or with an
    exception nobody catches. *)
Inductive outcome (A : Type) : Type :=
| Ret (a : A)
| Exit (code : Z)
| Raise (e : exn).
Arguments Ret {A} a.
Arguments Exit {A} code.
Arguments Raise {A} e.

Definition M (A : Type) : Type := list event * outcome A.

Definition ret {A} (a : A) : M A := ([], Ret a).

Definition bind {A B} (m : M A) (f : A -> M B) : M B :=
  match m with
  | (t, Ret a) => let (t', o) := f a in ((t ++ t')%list, o)
  | (t, Exit c) => (t, Exit c)
  | (t, Raise e) => (t, Raise e)
  end.

Definition emit (e : event) : M unit := ([e], Ret tt).
Definition sys_exit {A} (code : Z) : M A := ([], Exit code).
Definition raise {A} (e : exn) : M A := ([], Raise e).

(** A library call that either returns or raises [e]. *)
Definition or_raise {A} (e : exn) (o : option A) : M A :=
  match o with Some a => ret a | None => raise e end.

(** [for x in l: body(x)] *)
Fixpoint for_each {X} (l : list X) (body : X -> M unit) : M unit :=
  match l with
  | [] => ret tt
  | x :: rest => bind (body x) (fun _ => for_each rest body)
  end.

(** A [for] loop whose body updates local variables [S]. *)
Fixpoint for_fold {X S} (l : list X) (body : S -> X -> M S) (s : S) : M S :=
  match l with
  | [] => ret s
  | x :: rest => bind (body s x) (for_fold rest body)
  end.

Definition trace {A} (m : M A) : list event := fst m.
Definition result {A} (m : M A) : outcome A := snd m.

(** Exit status of the interpreter: 0 when the script runs to its end,
    the argument of [sys.exit], 1 after an uncaught exception. *)
Definition exit_status {A} (m : M A) : Z :=
  match result m with
  | Ret _ => 0
  | Exit c => c
  | Raise _ => 1
  end%Z.

Definition stdout (t : list event) : list string :=
  flat_map (fun e => match e with Print l => [l] | _ => [] end) t.

Definition created_tags (t : list event) : list string :=
  flat_map (fun e => match e with CreateTag n => [n] | _ => [] end) t.

Definition pushes (t : list event) : list (string * string) :=
  flat_map (fun e => match e with Push r n => [(r, n)] | _ => [] end) t.

Definition level_name (l : level) : string :=
  match l with INFO => "INFO" | WARNING => "WARNING" | ERROR => "ERROR" end.

Definition level_no (l : level) : nat :=
  match l with INFO => 20 | WARNING => 30 | ERROR => 40 end.

(** Lines the root logger writes to standard error under
    [basicConfig(stream=sys.stderr, level=threshold,
    format='%(levelname)s: %(message)s')]. *)
Definition log_lines (threshold : level) (t : list event) : list string :=
  flat_map (fun e =>
              match e with
              | Log l msg =>
                  if (level_no threshold <=? level_no l)%nat
                  then [level_name l ++ ": " ++ msg] else []
              | _ => []
              end) t.

End Proc.

Declare Scope proc_scope.
Delimit Scope proc_scope with proc.
Notation "x <- c1 ;; c2" := (Proc.bind c1 (fun x => c2))
  (at level 61, c1 at next level, right associativity) : proc_scope.
Notation "c1 ;; c2" := (Proc.bind c1 (fun _ => c2))
  (at level 61, right associativity) : proc_scope.

(* ===================================================================== *)
(** ** [main.py] *)
(* ===================================================================== *)

Module Main.
Import PyStr Proc.
Import Semver(Version, major, minor, patch).
#[local] Open Scope proc_scope.

(** The objects of [git_repo.references]. *)
Inductive reference : Type :=
| TagReference (name : string)
| Head (name : string)
| RemoteReference (name : string).

Record Repo : Type := mkRepo {
  references : list reference;
  remotes : list string
}.

(** Membership test of a [set] of [Version]: same hash and [==]. *)
Definition same_version (a b : Version) : bool :=
  Semver.hash_eqb a b && Semver.eq a b.

(** The argument of [Version.parse] in [find_previous_versions]. *)
Definition extracted_version (ref_name version_prefix version_suffix : string)
  : string :=
  replace (replace ref_name version_prefix "") version_suffix "".

(** The body of the loop of [find_previous_versions]; the two sets are
    its local variables.  Only the references whose type is
    [TagReference] are looked at, and the name of a reference is never
    [None]. *)
Definition find_step (version_prefix version_suffix : string)
    (acc : list Version * list string) (ref : reference)
  : M (list Version * list string) :=
  let (previous_versions, all_git_tags) := acc in
  match ref with
  | TagReference ref_name =>
      let all_git_tags := PySet.add String.eqb all_git_tags ref_name in
      if startswith ref_name version_prefix
         && endswith ref_name version_suffix
      then
        match Semver.parse
                (extracted_version ref_name version_prefix version_suffix) with
        | None =>
            emit
              (Log WARNING
                 ("Tagname " ++ ref_name ++
                  " could not be parsed as <Major>.<Minor>.<Patch> Version")) ;;
            ret (previous_versions, all_git_tags)
        | Some version =>
            let previous_versions :=
              PySet.add same_version previous_versions version in
            emit (Log INFO ("Tag " ++ ref_name ++ " found")) ;;
            ret (previous_versions, all_git_tags)
        end
      else ret (previous_versions, all_git_tags)
  | _ => ret (previous_versions, all_git_tags)
  end.

Definition find_previous_versions (git_repo : Repo)
    (version_prefix version_suffix : string)
  : M (list Version * list string) :=
  for_fold (references git_repo) (find_step version_prefix version_suffix)
           ([], []).

(** The loop of [filter_versions] (lines 36 to 39), from the current
    value of [filtered_versions]. *)
Definition filter_versions_loop (fmajor : Z) (filter_minor_version : option Z)
    (versions filtered_versions : list Version) : list Version :=
  fold_left
    (fun filtered_versions version =>
       if (Z.of_N (major version) =? fmajor)%Z
       then
         if match filter_minor_version with
            | None => true
            | Some fminor => (Z.of_N (minor version) =? fminor)%Z
            end
         then PySet.add same_version filtered_versions version
         else filtered_versions
       else filtered_versions)
    versions filtered_versions.

Definition filter_versions (versions : list Version)
    (filter_major_version filter_minor_version : option Z) : list Version :=
  match filter_major_version with
  | None => versions
  | Some fmajor =>
      filter_versions_loop fmajor filter_minor_version versions []
  end.

Definition fetch_and_pull_remotes (git_repo : Repo) : M unit :=
  for_each (remotes git_repo)
    (fun remote =>
       emit (Log INFO ("Found remote " ++ remote)) ;;
       emit (Fetch remote) ;;
       emit (Pull remote)).

Definition push_new_tags_to_remotes (git_repo : Repo) (new_tag : string)
  : M unit :=
  for_each (remotes git_repo)
    (fun remote =>
       emit (Log INFO ("Found remote " ++ remote)) ;;
       emit (Push remote new_tag)).

Definition generate_version_name (increased_version : Version)
    (version_prefix version_suffix : string) (override_patch_version : bool)
    (patch_version : option string) : string :=
  if override_patch_version
     && match patch_version with
        | Some p => negb (String.eqb (strip p) "")
        | None => false
        end
  then version_prefix ++ str_of_int (major increased_version) ++ "."
       ++ str_of_int (minor increased_version) ++ "-SNAPSHOT" ++ version_suffix
  else version_prefix ++ Semver.to_str increased_version ++ version_suffix.

(** Lines 84 to 103 of [calculate_new_version]: the value of the variable
    [increased_version]. *)
Definition increased_version (versions filtered_versions : list Version)
    (filter_major_version filter_minor_version : option Z) : M Version :=
  if (List.length versions =? 0)%nat then
    or_raise ValueError (Semver.Version_init 1 0 0)
  else if (List.length filtered_versions =? 0)%nat then
    match filter_major_version with
    | None => raise TypeError
    | Some major =>
        let minor :=
          match filter_minor_version with
          | Some m => if (m =? 0)%Z then 0%Z else m
          | None => 0%Z
          end in
        or_raise ValueError (Semver.Version_init major minor 0)
    end
  else
    max_version <-
      or_raise ValueError (PySet.max Semver.gt filtered_versions) ;;
    let increased_version := Semver.bump_patch max_version in
    emit (Log INFO ("Max Version is " ++ Semver.to_str max_version)) ;;
    ret increased_version.

(** The command.  [repo] is the object [Repo(repo_path)]; [verbose] only
    sets the threshold of the logger, see [stderr]. *)
Definition calculate_new_version (repo : Repo)
    (version_prefix version_suffix : string)
    (filter_major_version filter_minor_version : option Z)
    (create_no_git_tag pull_before create_snapshot_version verbose : bool)
  : M unit :=
  (if pull_before then fetch_and_pull_remotes repo else ret tt) ;;
  found <- find_previous_versions repo version_prefix version_suffix ;;
  let (versions, all_git_tags) := found : list Version * list string in
  let filtered_versions :=
    filter_versions versions filter_major_version filter_minor_version in
  increased_version <-
    increased_version versions filtered_versions
                      filter_major_version filter_minor_version ;;
  let new_version_tag_name :=
    generate_version_name increased_version version_prefix version_suffix
                          create_snapshot_version (Some "SNAPSHOT") in
  (if negb create_no_git_tag then
     if PySet.contains String.eqb all_git_tags new_version_tag_name then
       emit (Log ERROR ("Could not create " ++ new_version_tag_name ++
                        " git-tag, because it already exsists")) ;;
       sys_exit 1
     else
       emit (CreateTag new_version_tag_name) ;;
       push_new_tags_to_remotes repo new_version_tag_name
   else ret tt) ;;
  emit (Print new_version_tag_name).

(** Standard error of a run: the logger's threshold is [INFO] with
    [--verbose] and [ERROR] without. *)
Definition stderr (verbose : bool) (t : list event) : list string :=
  log_lines (if verbose then INFO else ERROR) t.

(** The pure part of the command: the two sets read from the repository,
    the selected version and the rendered name, when there is one. *)
Definition version_set (repo : Repo) (version_prefix version_suffix : string)
  : list Version :=
  match result (find_previous_versions repo version_prefix version_suffix) with
  | Ret (versions, _) => versions
  | _ => []
  end.

Definition tag_set (repo : Repo) (version_prefix version_suffix : string)
  : list string :=
  match result (find_previous_versions repo version_prefix version_suffix) with
  | Ret (_, all_git_tags) => all_git_tags
  | _ => []
  end.

Definition next_version (repo : Repo) (version_prefix version_suffix : string)
    (filter_major_version filter_minor_version : option Z) : outcome Version :=
  let versions := version_set repo version_prefix version_suffix in
  result (increased_version versions
            (filter_versions versions filter_major_version filter_minor_version)
            filter_major_version filter_minor_version).

Definition next_tag_name (repo : Repo) (version_prefix version_suffix : string)
    (filter_major_version filter_minor_version : option Z)
    (create_snapshot_version : bool) : option string :=
  match next_version repo version_prefix version_suffix
                     filter_major_version filter_minor_version with
  | Ret v => Some (generate_version_name v version_prefix version_suffix
                     create_snapshot_version (Some "SNAPSHOT"))
  | _ => None
  end.

End Main.

(* ===================================================================== *)
(** ** Vocabulary of the properties *)
(* ===================================================================== *)

Module Spec.
Import PyStr Proc Main.
Import Semver(Version, major, minor, patch, prerelease, build).

(** The tag name follows the naming convention: the test of line 19. *)
Definition matches_pattern (name version_prefix version_suffix : string)
  : bool :=
  startswith name version_prefix && endswith name version_suffix.

(** The remainder in the words of the specification: the tag name without
    its leading prefix and its trailing suffix, every other character
    kept. *)
Definition strip_affixes (name version_prefix version_suffix : string)
  : string :=
  substring (String.length version_prefix)
            (String.length name - String.length version_prefix
             - String.length version_suffix)
            name.

(** The total order by (major, minor, patch). *)
Definition triple_le (a b : Version) : Prop :=
  (major a < major b
   \/ (major a = major b
       /\ (minor a < minor b
           \/ (minor a = minor b /\ patch a <= patch b))))%N.

Definition is_max (m : Version) (s : list Version) : Prop :=
  In m s /\ forall v, In v s -> triple_le v m.

(** A list that holds a [set] of versions: no two of its elements are
    the same member. *)
Definition is_set (s : list Version) : Prop :=
  NoDup (map Semver.hash_key s).

(** The condition of lines 37 and 38. *)
Definition selected (fmajor : Z) (fminor : option Z) (v : Version) : Prop :=
  Z.of_N (major v) = fmajor
  /\ forall m, fminor = Some m -> Z.of_N (minor v) = m.

Definition selectedb (fmajor : Z) (fminor : option Z) (v : Version) : bool :=
  (Z.of_N (major v) =? fmajor)%Z
  && match fminor with
     | None => true
     | Some m => (Z.of_N (minor v) =? m)%Z
     end.

(** [filter-minor or 0] *)
Definition minor_or_0 (fminor : option Z) : Z :=
  match fminor with Some m => m | None => 0%Z end.

(** The message of line 24. *)
Definition unparsable_warning (ref_name : string) : string :=
  "Tagname " ++ ref_name ++
  " could not be parsed as <Major>.<Minor>.<Patch> Version".

(** The message of line 109. *)
Definition collision_error (name : string) : string :=
  "Could not create " ++ name ++ " git-tag, because it already exsists".

(** [a] occurs in [s]. *)
Definition occurs_in (a s : string) : Prop :=
  exists l r, s = l ++ a ++ r.

(** The effect of one pass of the loop of [find_previous_versions] on
    each of its two sets, and what it logs. *)
Definition scan_versions (version_prefix version_suffix : string)
    (vs : list Version) (ref : reference) : list Version :=
  match ref with
  | TagReference name =>
      if matches_pattern name version_prefix version_suffix then
        match Semver.parse
                (extracted_version name version_prefix version_suffix) with
        | Some v => PySet.add same_version vs v
        | None => vs
        end
      else vs
  | _ => vs
  end.

Definition scan_tags (tags : list string) (ref : reference) : list string :=
  match ref with
  | TagReference name => PySet.add String.eqb tags name
  | _ => tags
  end.

Definition scan_log (version_prefix version_suffix : string)
    (ref : reference) : list event :=
  match ref with
  | TagReference name =>
      if matches_pattern name version_prefix version_suffix then
        match Semver.parse
                (extracted_version name version_prefix version_suffix) with
        | Some _ => [Log INFO ("Tag " ++ name ++ " found")]
        | None => [Log WARNING (unparsable_warning name)]
        end
      else []
  | _ => []
  end.

(** The references that are tags following the naming convention. *)
Definition is_matching_tag (version_prefix version_suffix : string)
    (ref : reference) : bool :=
  match ref with
  | TagReference name => matches_pattern name version_prefix version_suffix
  | _ => false
  end.

(** What follows a number inside a version string is not a digit. *)
Definition no_digit_ahead (rest : string) : Prop :=
  match rest with
  | String c _ => is_digit c = false
  | EmptyString => True
  end.

(** A trace of logging calls only: nothing is fetched, created, pushed
    or printed. *)
Definition only_logs (t : list event) : Prop :=
  Forall (fun e => match e with Log _ _ => True | _ => False end) t.

(** A trace in which no tag is created, nothing is pushed and nothing is
    printed. *)
Definition quiet (t : list event) : Prop :=
  created_tags t = [] /\ pushes t = [] /\ stdout t = [].

(** What happens before the tags are read: lines 78 and 79. *)
Definition pull_part (repo : Repo) (pull_before : bool) : M unit :=
  if pull_before then fetch_and_pull_remotes repo else ret tt.

(** The fetches and pulls of a trace, in order. *)
Definition remote_reads (t : list event) : list event :=
  filter (fun e => match e with Fetch _ | Pull _ => true | _ => false end) t.

(** The version passes the filters of the command line. *)
Definition passes_filter (fmajor fminor : option Z) (v : Version) : Prop :=
  match fmajor with
  | None => True
  | Some M => selected M fminor v
  end.

(** Strictly below in the order by (major, minor, patch). *)
Definition triple_lt (a b : Version) : Prop :=
  triple_le a b /\ ~ triple_le b a.

(** The repository once the tag [name] has been added to it. *)
Definition with_tag (repo : Repo) (name : string) : Repo :=
  mkRepo (references repo ++ [TagReference name])%list (remotes repo).

(** Two repositories with the same tag names, in whatever order and
    number. *)
Definition same_tags (repo repo' : Repo) : Prop :=
  forall name,
    In (TagReference name) (references repo)
    <-> In (TagReference name) (references repo').

(** [t] is an initial segment of [u].  A git operation that raises cuts
    a run short: what the run has done by then is an initial segment of
    the trace of the run in which every git operation returns. *)
Definition initial_segment {A : Type} (t u : list A) : Prop :=
  exists rest, u = (t ++ rest)%list.

(** The character [c] occurs in [s]. *)
Fixpoint has_char (c : ascii) (s : string) : bool :=
  match s with
  | EmptyString => false
  | String x rest => Ascii.eqb x c || has_char c rest
  end.

(** A character of the text of a version without prerelease and build
    parts: a digit or the dot. *)
Definition is_version_char (c : ascii) : bool :=
  is_digit c || Ascii.eqb c ".".

(** The prefix cannot be found again in a rendered name: it is empty, or
    one of its characters occurs neither in the text of a version nor in
    the suffix. *)
Definition safe_prefix (version_prefix version_suffix : string) : Prop :=
  version_prefix = EmptyString
  \/ exists c, has_char c version_prefix = true
               /\ is_version_char c = false
               /\ has_char c version_suffix = false.

(** The suffix cannot be found inside the text of a version: it is empty
    or does not start like one. *)
Definition safe_suffix (version_suffix : string) : Prop :=
  match version_suffix with
  | EmptyString => True
  | String c _ => is_version_char c = false
  end.

End Spec.

(* ===================================================================== *)
(** ** The model on examples *)
(* ===================================================================== *)

Example replace_all_occurrences :
  PyStr.replace "v1.0.0-dev" "v" "" = "1.0.0-de".
Proof. reflexivity. Qed.

Example replace_empty_pattern : PyStr.replace "abc" "" "" = "abc".
Proof. reflexivity. Qed.

Example replace_no_overlap : PyStr.replace "aaa" "aa" "b" = "ba".
Proof. reflexivity. Qed.

Example endswith_suffix : PyStr.endswith "release-1.2.3-final" "-final" = true.
Proof. reflexivity. Qed.

Example strip_marker : PyStr.strip " SNAPSHOT  " = "SNAPSHOT".
Proof. reflexivity. Qed.

Example str_of_int_120 : PyStr.str_of_int 120 = "120".
Proof. reflexivity. Qed.

(** The scenarios of the specification, run through the command. *)

Example scenario_three_tags :
  Proc.stdout (Proc.trace
    (Main.calculate_new_version
       (Main.mkRepo [Main.TagReference "v1.0.0"; Main.TagReference "v1.1.0";
                     Main.TagReference "v2.0.0"] [])
       "v" "" None None true false false false))
  = ["v2.0.1"].
Proof. reflexivity. Qed.

Example scenario_no_tags :
  Proc.stdout (Proc.trace
    (Main.calculate_new_version (Main.mkRepo [] [])
       "v" "" None None true false false false))
  = ["v1.0.0"].
Proof. reflexivity. Qed.

Example scenario_new_major :
  Proc.stdout (Proc.trace
    (Main.calculate_new_version
       (Main.mkRepo [Main.TagReference "v1.0.0"] [])
       "v" "" (Some 3%Z) None true false false false))
  = ["v3.0.0"].
Proof. reflexivity. Qed.

Example scenario_new_minor :
  Proc.stdout (Proc.trace
    (Main.calculate_new_version
       (Main.mkRepo [Main.TagReference "v1.0.0"] [])
       "v" "" (Some 2%Z) (Some 3%Z) true false false false))
  = ["v2.3.0"].
Proof. reflexivity. Qed.

Example scenario_release_final :
  Proc.stdout (Proc.trace
    (Main.calculate_new_version
       (Main.mkRepo [Main.TagReference "release-1.2.3-final"] [])
       "release-" "-final" None None true false false false))
  = ["release-1.2.4-final"].
Proof. reflexivity. Qed.

Example scenario_create_and_push :
  Main.calculate_new_version
    (Main.mkRepo [Main.TagReference "v1.0.0"; Main.Head "main"] ["origin"])
    "v" "" None None false true false false
  = ([Proc.Log Proc.INFO "Found remote origin"; Proc.Fetch "origin";
      Proc.Pull "origin"; Proc.Log Proc.INFO "Tag v1.0.0 found";
      Proc.Log Proc.INFO "Max Version is 1.0.0"; Proc.CreateTag "v1.0.1";
      Proc.Log Proc.INFO "Found remote origin"; Proc.Push "origin" "v1.0.1";
      Proc.Print "v1.0.1"],
     Proc.Ret tt).
Proof. reflexivity. Qed.

Example parse_examples :
  map Semver.parse ["1.2.3"; "01.2.3"; "1.2"; "1.2.3-rc.1+build.5"; "1.2.3-"]
  = [Some (Semver.mkVersion 1 2 3 None None); None; None;
     Some (Semver.mkVersion 1 2 3 (Some "rc.1") (Some "build.5")); None].
Proof. reflexivity. Qed.

Example prerelease_below_release :
  Semver.compare (Semver.mkVersion 1 2 3 (Some "rc.1") None)
                 (Semver.mkVersion 1 2 3 None None) = Lt.
Proof. reflexivity. Qed.

Example numeric_identifiers_compare_as_numbers :
  Semver.compare (Semver.mkVersion 1 2 3 (Some "rc.2") None)
                 (Semver.mkVersion 1 2 3 (Some "rc.10") None) = Lt.
Proof. reflexivity. Qed.

(* ===================================================================== *)
(** ** Facts about the [semver] model *)
(* ===================================================================== *)

#[local] Open Scope list_scope.

Section SemverFacts.
Import Semver.

Lemma cmp_prerelease_tag_refl x : cmp_prerelease_tag x x = Eq.
Proof.
  destruct x as [n | s]; simpl.
  - apply N.compare_refl.
  - unfold PyStr.str_compare.
    pose proof (String.compare_antisym s s) as H.
    destruct (String.compare s s); simpl in H; congruence.
Qed.

Lemma zip_cmp_refl xs : zip_cmp xs xs = Eq.
Proof.
  induction xs as [| x xs IH]; simpl; [reflexivity |].
  now rewrite cmp_prerelease_tag_refl.
Qed.

Lemma nat_cmp_refl p : nat_cmp p p = Eq.
Proof.
  unfold nat_cmp. rewrite zip_cmp_refl. apply Nat.compare_refl.
Qed.

Lemma hash_eqb_key a b : hash_eqb a b = true <-> hash_key a = hash_key b.
Proof.
  unfold hash_eqb, hash_key.
  rewrite !andb_true_iff, !N.eqb_eq.
  split.
  - intros [[[Hma Hmi] Hpa] H]. rewrite Hma, Hmi, Hpa. f_equal.
    destruct (prerelease a), (prerelease b); try discriminate H;
      [apply String.eqb_eq in H; now subst | reflexivity].
  - intros H. injection H as Hma Hmi Hpa Hpre. rewrite Hpre.
    repeat split; try assumption.
    destruct (prerelease b); [apply String.eqb_refl | reflexivity].
Qed.

Lemma compare_same_key a b : hash_key a = hash_key b -> compare a b = Eq.
Proof.
  unfold hash_key. intros H. injection H as Hma Hmi Hpa Hpre.
  unfold compare, cmp_triple.
  rewrite Hma, Hmi, Hpa, Hpre, !N.compare_refl, nat_cmp_refl. reflexivity.
Qed.

(** Membership in a set of versions is decided by the key alone. *)
Lemma same_version_key a b :
  Main.same_version a b = true <-> hash_key a = hash_key b.
Proof.
  unfold Main.same_version. rewrite andb_true_iff, hash_eqb_key.
  split; [tauto |]. intros H. split; [exact H |].
  unfold eq. now rewrite (compare_same_key _ _ H).
Qed.

Ltac solve_cmp :=
  let H := fresh "H" in
  split;
  [ intros H; first [ exfalso; apply H; reflexivity | lia ]
  | intros H; first [ discriminate | exfalso; lia ] ].

Lemma cmp_triple_le a b : cmp_triple a b <> Gt <-> Spec.triple_le a b.
Proof.
  unfold cmp_triple, Spec.triple_le.
  destruct (N.compare_spec (major a) (major b)); [| solve_cmp ..].
  destruct (N.compare_spec (minor a) (minor b)); [| solve_cmp ..].
  destruct (N.compare_spec (patch a) (patch b)); solve_cmp.
Qed.

Lemma cmp_triple_ge a b : cmp_triple a b <> Lt <-> Spec.triple_le b a.
Proof.
  unfold cmp_triple, Spec.triple_le.
  destruct (N.compare_spec (major a) (major b)); [| solve_cmp ..].
  destruct (N.compare_spec (minor a) (minor b)); [| solve_cmp ..].
  destruct (N.compare_spec (patch a) (patch b)); solve_cmp.
Qed.

(** [x > cur] means that [x] is not below [cur] in the order of the
    triples, and the failure of the test that it is not above. *)
Lemma gt_true_triple x cur : gt x cur = true -> Spec.triple_le cur x.
Proof.
  unfold gt, compare. intros H. apply cmp_triple_ge.
  intros Hlt. rewrite Hlt in H. discriminate.
Qed.

Lemma gt_false_triple x cur : gt x cur = false -> Spec.triple_le x cur.
Proof.
  unfold gt, compare. intros H. apply cmp_triple_le.
  intros Hgt. rewrite Hgt in H. discriminate.
Qed.

Lemma triple_le_refl a : Spec.triple_le a a.
Proof. unfold Spec.triple_le. lia. Qed.

Lemma triple_le_trans a b c :
  Spec.triple_le a b -> Spec.triple_le b c -> Spec.triple_le a c.
Proof. unfold Spec.triple_le. lia. Qed.

Lemma triple_le_antisym a b :
  Spec.triple_le a b -> Spec.triple_le b a ->
  major a = major b /\ minor a = minor b /\ patch a = patch b.
Proof. unfold Spec.triple_le. lia. Qed.

Lemma triple_le_total a b : Spec.triple_le a b \/ Spec.triple_le b a.
Proof. unfold Spec.triple_le. lia. Qed.

Lemma bump_patch_triple a b :
  major a = major b -> minor a = minor b -> patch a = patch b ->
  bump_patch a = bump_patch b.
Proof. unfold bump_patch. now intros -> -> ->. Qed.

End SemverFacts.

(* ===================================================================== *)
(** ** What [Version.parse] accepts *)
(* ===================================================================== *)

Section ParseSound.
Import Semver(Version, mkVersion, major, minor, patch, prerelease, build).
Import PyStr.
#[local] Open Scope string_scope.

Lemma span_app p s a b : span p s = (a, b) -> s = a ++ b.
Proof.
  revert a b. induction s as [| c s IH]; simpl; intros a b H.
  - now injection H as <- <-.
  - destruct (p c).
    + destruct (span p s) as [a' b']. injection H as <- <-.
      simpl. f_equal. now apply IH.
    + now injection H as <- <-.
Qed.

Lemma expect_sound c s t : Semver.expect c s = Some t -> s = String c t.
Proof.
  destruct s as [| x s']; simpl; [discriminate |].
  destruct (Ascii.eqb_spec x c) as [-> |]; [| discriminate].
  now intros [= ->].
Qed.

Lemma uint_string_empty d : NilEmpty.string_of_uint d = "" -> d = Decimal.Nil.
Proof. now destruct d. Qed.

(** A numeral without a leading zero is the one printed for its value. *)
Lemma unorm_canonical d :
  d <> Decimal.Nil ->
  Semver.leading_zero (NilZero.string_of_uint d) = false ->
  Decimal.unorm d = d.
Proof.
  destruct d; try congruence; try reflexivity.
  intros _. simpl.
  destruct (NilEmpty.string_of_uint d) eqn:E; [| discriminate].
  apply uint_string_empty in E. now subst.
Qed.

Lemma str_of_int_of_str ds n :
  Semver.leading_zero ds = false -> int_of_str ds = Some n ->
  str_of_int n = ds.
Proof.
  unfold int_of_str, str_of_int. intros Hlz Hn.
  destruct (NilZero.uint_of_string ds) as [d |] eqn:E; [| discriminate].
  injection Hn as <-.
  assert (Hd : d <> Decimal.Nil).
  { intros ->. now apply NilZero.uint_of_string_nonnil in E. }
  apply NilZero.sus in E. subst ds.
  rewrite DecimalN.Unsigned.to_of.
  now rewrite unorm_canonical.
Qed.

Lemma numeric_sound s n rest :
  Semver.numeric s = Some (n, rest) -> s = str_of_int n ++ rest.
Proof.
  unfold Semver.numeric.
  destruct (span is_digit s) as [ds r] eqn:E. apply span_app in E. subst s.
  destruct ds as [| c ds']; [discriminate |].
  destruct (Semver.leading_zero (String c ds')) eqn:Hlz; [discriminate |].
  destruct (int_of_str (String c ds')) as [m |] eqn:Hi; [| discriminate].
  intros [= <- <-]. now rewrite (str_of_int_of_str _ _ Hlz Hi).
Qed.

Lemma parse_tail_sound s pre bld :
  Semver.parse_tail s = Some (pre, bld) ->
  s = match pre with Some p => "-" ++ p | None => "" end
      ++ match bld with Some b => "+" ++ b | None => "" end
  /\ pre <> Some "" /\ bld <> Some "".
Proof.
  unfold Semver.parse_tail.
  destruct (Semver.expect "-" s) as [t |] eqn:Edash.
  - apply expect_sound in Edash. subst s.
    destruct (span (fun c => negb (Ascii.eqb c "+")) t) as [p r] eqn:Esp.
    apply span_app in Esp. subst t.
    destruct (forallb Semver.prerelease_id (split "." p)) eqn:Hpre.
    + assert (Hp : Some p <> Some "") by (intros [= ->]; discriminate Hpre).
      destruct r as [| c r'].
      * intros [= <- <-].
        split; [reflexivity | split; [exact Hp | discriminate]].
      * destruct (Semver.expect "+" (String c r')) as [b |] eqn:Eplus;
          [| discriminate].
        apply expect_sound in Eplus. injection Eplus as -> ->.
        cbn [andb].
        destruct (forallb Semver.build_id (split "." b)) eqn:Hb;
          [| discriminate].
        intros [= <- <-].
        split; [reflexivity | split; [exact Hp |]].
        intros [= ->]. discriminate Hb.
    + destruct r as [| c r']; [discriminate |].
      destruct (Semver.expect "+" (String c r')); discriminate.
  - destruct s as [| c s']; [intros [= <- <-]; repeat split; discriminate |].
    destruct (Semver.expect "+" (String c s')) as [b |] eqn:Eplus;
      [| discriminate].
    apply expect_sound in Eplus. injection Eplus as -> ->.
    cbn [andb].
    destruct (forallb Semver.build_id (split "." b)) eqn:Hb; [| discriminate].
    intros [= <- <-].
    split; [reflexivity | split; [discriminate |]].
    intros [= ->]. discriminate Hb.
Qed.

(** What the parser accepts is what [str] prints for the version it
    returns: the numbers major, minor and patch in decimal, separated by
    dots, then the prerelease and build parts if there are any. *)
Lemma parse_sound s v :
  Semver.parse s = Some v -> Semver.chomp s = Semver.to_str v.
Proof.
  unfold Semver.parse.
  destruct (Semver.numeric (Semver.chomp s)) as [[ma s0] |] eqn:E1;
    [| discriminate].
  apply numeric_sound in E1. rewrite E1.
  destruct (Semver.expect "." s0) as [s1 |] eqn:D1; [| discriminate].
  apply expect_sound in D1. subst s0.
  destruct (Semver.numeric s1) as [[mi s1'] |] eqn:E2; [| discriminate].
  apply numeric_sound in E2. subst s1.
  destruct (Semver.expect "." s1') as [s2 |] eqn:D2; [| discriminate].
  apply expect_sound in D2. subst s1'.
  destruct (Semver.numeric s2) as [[pa s3] |] eqn:E3; [| discriminate].
  apply numeric_sound in E3. subst s2.
  destruct (Semver.parse_tail s3) as [[pre bld] |] eqn:E4; [| discriminate].
  apply parse_tail_sound in E4. destruct E4 as [-> [Hpre Hbld]].
  intros [= <-]. unfold Semver.to_str. cbn [major minor patch prerelease build].
  destruct pre as [[| c p] |]; [congruence | |];
    (destruct bld as [[| c' b] |]; [congruence | |]); reflexivity.
Qed.

End ParseSound.

(* ===================================================================== *)
(** ** Sets and [max] *)
(* ===================================================================== *)

Section SetFacts.
Import Semver(Version, hash_key).
Import Main.

Lemma add_In {A} (same : A -> A -> bool) s x v :
  In v (PySet.add same s x)
  <-> In v s \/ (v = x /\ PySet.contains same s x = false).
Proof.
  unfold PySet.add.
  destruct (PySet.contains same s x) eqn:E.
  - split; [auto | intros [H | [_ H]]; [exact H | discriminate H]].
  - rewrite in_app_iff. simpl. intuition (subst; auto).
Qed.

Lemma contains_key s x :
  PySet.contains same_version s x = true <-> In (hash_key x) (map hash_key s).
Proof.
  unfold PySet.contains. rewrite existsb_exists, in_map_iff.
  split; intros [y [H1 H2]]; exists y.
  - apply same_version_key in H2. auto.
  - split; [tauto |]. apply same_version_key. symmetry. tauto.
Qed.

Lemma contains_false_key s x :
  PySet.contains same_version s x = false
  <-> ~ In (hash_key x) (map hash_key s).
Proof.
  rewrite <- contains_key. destruct (PySet.contains same_version s x);
    split; congruence.
Qed.

Lemma contains_In s x : In x s -> PySet.contains same_version s x = true.
Proof. intros H. apply contains_key. now apply in_map. Qed.

Lemma add_is_set s x :
  Spec.is_set s -> Spec.is_set (PySet.add same_version s x).
Proof.
  unfold Spec.is_set, PySet.add. intros Hs.
  destruct (PySet.contains same_version s x) eqn:E; [exact Hs |].
  apply contains_false_key in E.
  rewrite map_app. simpl.
  apply NoDup_rev in Hs. rewrite <- rev_involutive. apply NoDup_rev.
  rewrite rev_app_distr. simpl. constructor; [| exact Hs].
  now rewrite <- in_rev.
Qed.

(** Python's [max] returns a member that no member exceeds in the order
    of the triples. *)
Lemma max_from_In cur l : In (PySet.max_from Semver.gt cur l) (cur :: l).
Proof.
  revert cur. induction l as [| x l IH]; intros cur; simpl; [auto |].
  destruct (IH (if Semver.gt x cur then x else cur)) as [H | H]; [| auto].
  destruct (Semver.gt x cur); auto.
Qed.

Lemma max_from_upper cur l v :
  In v (cur :: l) -> Spec.triple_le v (PySet.max_from Semver.gt cur l).
Proof.
  revert cur v. induction l as [| x l IH]; intros cur v Hv; simpl.
  - destruct Hv as [<- | []]. apply triple_le_refl.
  - destruct (Semver.gt x cur) eqn:E.
    + apply gt_true_triple in E.
      destruct Hv as [<- | [<- | Hv]].
      * apply triple_le_trans with x; [exact E | apply IH; now left].
      * apply IH. now left.
      * apply IH. now right.
    + apply gt_false_triple in E.
      destruct Hv as [<- | [<- | Hv]].
      * apply IH. now left.
      * apply triple_le_trans with cur; [exact E | apply IH; now left].
      * apply IH. now right.
Qed.

Lemma max_is_max s :
  s <> [] -> exists m, PySet.max Semver.gt s = Some m /\ Spec.is_max m s.
Proof.
  destruct s as [| x l]; [congruence | intros _].
  exists (PySet.max_from Semver.gt x l). split; [reflexivity |].
  split; [apply max_from_In | intros v; apply max_from_upper].
Qed.

End SetFacts.

(* ===================================================================== *)
(** ** [filter_versions] *)
(* ===================================================================== *)

Section FilterFacts.
Import Semver(Version, major, minor, hash_key).
Import Main.

Lemma selectedb_spec fmajor fminor v :
  Spec.selectedb fmajor fminor v = true <-> Spec.selected fmajor fminor v.
Proof.
  unfold Spec.selectedb, Spec.selected.
  rewrite andb_true_iff, Z.eqb_eq.
  destruct fminor as [m |].
  - rewrite Z.eqb_eq. split.
    + intros [H1 H2]. split; [exact H1 |]. now intros ? [= <-].
    + intros [H1 H2]. auto.
  - split; [intros [H1 _]; split; [exact H1 | discriminate] | tauto].
Qed.

(** The loop of [filter_versions], started from any subset [acc] of what
    precedes [vs] in a set, keeps the selected members of [vs] in order. *)
Lemma filter_loop fmajor fminor vs : forall acc,
  Spec.is_set (acc ++ vs) ->
  filter_versions_loop fmajor fminor vs acc
  = acc ++ filter (Spec.selectedb fmajor fminor) vs.
Proof.
  unfold Spec.is_set.
  induction vs as [| x vs IH]; intros acc Hset; simpl.
  - now rewrite app_nil_r.
  - assert (Hacc : PySet.contains same_version acc x = false).
    { apply contains_false_key. rewrite map_app in Hset. simpl in Hset.
      apply NoDup_remove_2 in Hset. rewrite in_app_iff in Hset. tauto. }
    assert (Hrest : NoDup (map hash_key (acc ++ vs))).
    { rewrite map_app in *. simpl in Hset. now apply NoDup_remove_1 in Hset. }
    unfold Spec.selectedb at 1.
    destruct (Z.of_N (major x) =? fmajor)%Z; simpl.
    + destruct (match fminor with
                | Some m => (Z.of_N (minor x) =? m)%Z
                | None => true
                end).
      * unfold PySet.add. rewrite Hacc. rewrite IH.
        -- now rewrite <- app_assoc.
        -- now rewrite <- app_assoc.
      * now apply IH.
    + now apply IH.
Qed.

End FilterFacts.

Section FilterProperties.
Import Semver(Version, major, minor, patch, hash_key).
Import Main.

Lemma filter_versions_filter versions fmajor fminor :
  Spec.is_set versions ->
  filter_versions versions (Some fmajor) fminor
  = filter (Spec.selectedb fmajor fminor) versions.
Proof.
  intros Hset. unfold filter_versions.
  now rewrite filter_loop.
Qed.

Lemma filter_versions_nil fmajor fminor : filter_versions [] fmajor fminor = [].
Proof. now destruct fmajor. Qed.

(** Being in the result of the loop implies being in its input, set or
    not. *)
Lemma filter_loop_In fmajor fminor vs : forall acc v,
  In v (filter_versions_loop fmajor fminor vs acc) ->
  In v acc \/ (In v vs /\ Spec.selected fmajor fminor v).
Proof.
  induction vs as [| x vs IH]; intros acc v Hv; simpl in Hv; [auto |].
  apply IH in Hv. destruct Hv as [Hv | [Hv Hsel]]; [| simpl; tauto].
  destruct (Z.of_N (major x) =? fmajor)%Z eqn:Emaj; [| auto].
  destruct (match fminor with
            | Some m => (Z.of_N (minor x) =? m)%Z
            | None => true
            end) eqn:Emin; [| auto].
  apply add_In in Hv. destruct Hv as [Hv | [-> _]]; [auto |].
  right. split; [now left |].
  apply selectedb_spec. unfold Spec.selectedb. now rewrite Emaj, Emin.
Qed.

Lemma filter_versions_incl versions fmajor fminor :
  incl (filter_versions versions fmajor fminor) versions.
Proof.
  destruct fmajor as [M |]; [| apply incl_refl].
  intros v Hv. apply filter_loop_In in Hv.
  destruct Hv as [[] | [Hv _]]. exact Hv.
Qed.

(** C7 — The filter step.  Without a major filter the filtered set is the
    whole version set, whatever the minor filter; with a major filter it
    holds exactly the versions of the set whose major is the requested
    one and, when a minor filter is given too, whose minor is the
    requested one. *)
Theorem C7_filter_versions_exact versions :
  Spec.is_set versions ->
  (forall fminor, filter_versions versions None fminor = versions)
  /\ (forall fmajor fminor v,
        In v (filter_versions versions (Some fmajor) fminor)
        <-> In v versions
            /\ Z.of_N (major v) = fmajor
            /\ (forall m, fminor = Some m -> Z.of_N (minor v) = m)).
Proof.
  intros Hset. split; [reflexivity |].
  intros fmajor fminor v.
  rewrite filter_versions_filter by exact Hset.
  rewrite filter_In, selectedb_spec. reflexivity.
Qed.

End FilterProperties.

(* ===================================================================== *)
(** ** The selection of the next version *)
(* ===================================================================== *)

Section SelectionProperties.
Import Semver(Version, major, minor, patch, prerelease, build, bump_patch).
Import Proc Main.

Lemma length_eqb_0 {A} (l : list A) :
  l <> [] -> (List.length l =? 0)%nat = false.
Proof. destruct l; [congruence | reflexivity]. Qed.

Lemma increased_version_of_max versions filtered fmajor fminor m :
  versions <> [] -> filtered <> [] ->
  PySet.max Semver.gt filtered = Some m ->
  increased_version versions filtered fmajor fminor
  = ([Log INFO ("Max Version is " ++ Semver.to_str m)%string],
     Ret (bump_patch m)).
Proof.
  intros Hv Hf Hmax. unfold increased_version.
  rewrite (length_eqb_0 _ Hv), (length_eqb_0 _ Hf), Hmax. reflexivity.
Qed.

(** What the third branch of the selection computes: bump-patch of the
    member Python's [max] returns, which is a maximum of the triples. *)
Lemma increased_version_max_run versions filtered fmajor fminor :
  filtered <> [] ->
  incl filtered versions ->
  exists m0,
    Spec.is_max m0 filtered
    /\ result (increased_version versions filtered fmajor fminor)
       = Ret (bump_patch m0).
Proof.
  intros Hne Hincl.
  assert (Hv : versions <> []).
  { destruct filtered as [| x l]; [congruence |].
    intros ->. apply (Hincl x). now left. }
  destruct (max_is_max _ Hne) as [m0 [Hmax Hm0]].
  exists m0. split; [exact Hm0 |].
  now rewrite (increased_version_of_max _ _ _ _ _ Hv Hne Hmax).
Qed.

(** Two maxima of a set have the same triple, hence the same successor. *)
Lemma bump_patch_of_maxima m m0 s :
  Spec.is_max m s -> Spec.is_max m0 s -> bump_patch m = bump_patch m0.
Proof.
  intros [Hin Hup] [Hin0 Hup0].
  destruct (triple_le_antisym m m0 (Hup0 _ Hin) (Hup _ Hin0)) as [H1 [H2 H3]].
  now apply bump_patch_triple.
Qed.

(** C1 — For every non-empty filtered set there is a maximum in the order
    of (major, minor, patch), and the selected next version is bump-patch
    of it: same major and minor, patch greater by one.  The filtered set
    is any list of members of the version set, so the statement covers
    every order in which a [set] may hand out its members. *)
Theorem C1_next_is_bump_patch_of_max versions filtered fmajor fminor :
  filtered <> [] ->
  incl filtered versions ->
  (exists m, Spec.is_max m filtered)
  /\ (forall m,
        Spec.is_max m filtered ->
        result (increased_version versions filtered fmajor fminor)
        = Ret (bump_patch m)
        /\ major (bump_patch m) = major m
        /\ minor (bump_patch m) = minor m
        /\ patch (bump_patch m) = (patch m + 1)%N).
Proof.
  intros Hne Hincl.
  destruct (increased_version_max_run versions filtered fmajor fminor
              Hne Hincl) as [m0 [Hm0 Hrun]].
  split; [now exists m0 |].
  intros m Hm. split; [| repeat split].
  rewrite Hrun. f_equal. symmetry.
  now apply bump_patch_of_maxima with filtered.
Qed.

(** In the command the filtered set is [filter_versions versions ...]. *)
Corollary next_version_of_max repo version_prefix version_suffix
    fmajor fminor m :
  let versions := version_set repo version_prefix version_suffix in
  Spec.is_max m (filter_versions versions fmajor fminor) ->
  next_version repo version_prefix version_suffix fmajor fminor
  = Ret (bump_patch m).
Proof.
  intros versions Hmax. unfold next_version. fold versions.
  assert (Hne : filter_versions versions fmajor fminor <> []).
  { destruct Hmax as [Hin _]. intros E. rewrite E in Hin. exact Hin. }
  destruct (increased_version_max_run versions _ fmajor fminor Hne
              (filter_versions_incl _ _ _)) as [m0 [Hm0 Hrun]].
  rewrite Hrun. f_equal. symmetry.
  now apply bump_patch_of_maxima with (filter_versions versions fmajor fminor).
Qed.

End SelectionProperties.

(* ===================================================================== *)
(** ** [find_previous_versions] *)
(* ===================================================================== *)

Section ScanFacts.
Import Semver(Version, hash_key).
Import Proc Main.

Variables version_prefix version_suffix : string.

Abbreviation scan_versions :=
  (Spec.scan_versions version_prefix version_suffix).
Abbreviation scan_log := (Spec.scan_log version_prefix version_suffix).
Abbreviation matches name :=
  (Spec.matches_pattern name version_prefix version_suffix).
Abbreviation remainder name :=
  (extracted_version name version_prefix version_suffix).

(** One pass of the loop never exits and never raises: the exception of
    [Version.parse] is caught. *)
Lemma find_step_view vs tags ref :
  find_step version_prefix version_suffix (vs, tags) ref
  = (scan_log ref, Ret (scan_versions vs ref, Spec.scan_tags tags ref)).
Proof.
  destruct ref as [name | name | name]; try reflexivity.
  unfold find_step, Spec.scan_log, Spec.scan_versions, Spec.scan_tags,
    Spec.matches_pattern.
  destruct (PyStr.startswith name version_prefix
            && PyStr.endswith name version_suffix); [| reflexivity].
  destruct (Semver.parse (remainder name)); reflexivity.
Qed.

Lemma find_loop_view refs : forall vs tags,
  for_fold refs (find_step version_prefix version_suffix) (vs, tags)
  = (flat_map scan_log refs,
     Ret (fold_left scan_versions refs vs, fold_left Spec.scan_tags refs tags)).
Proof.
  induction refs as [| ref refs IH]; intros vs tags; [reflexivity |].
  cbn [for_fold]. rewrite find_step_view. unfold bind. now rewrite IH.
Qed.

Lemma find_previous_versions_view repo :
  find_previous_versions repo version_prefix version_suffix
  = (flat_map scan_log (references repo),
     Ret (fold_left scan_versions (references repo) [],
          fold_left Spec.scan_tags (references repo) [])).
Proof. apply find_loop_view. Qed.

Lemma version_set_view repo :
  version_set repo version_prefix version_suffix
  = fold_left scan_versions (references repo) [].
Proof. unfold version_set. now rewrite find_previous_versions_view. Qed.

Lemma tag_set_view repo :
  tag_set repo version_prefix version_suffix
  = fold_left Spec.scan_tags (references repo) [].
Proof. unfold tag_set. now rewrite find_previous_versions_view. Qed.

(** Every member of the version set is the parse of the remainder of a
    tag that follows the naming convention. *)
Lemma scan_versions_In refs : forall vs v,
  In v (fold_left scan_versions refs vs) ->
  In v vs
  \/ exists name, In (TagReference name) refs /\ matches name = true
                  /\ Semver.parse (remainder name) = Some v.
Proof.
  induction refs as [| ref refs IH]; intros vs v Hv; simpl in Hv; [auto |].
  apply IH in Hv. destruct Hv as [Hv | [name [H1 H2]]].
  - destruct ref as [name | name | name]; simpl in Hv; auto.
    destruct (matches name) eqn:Em; [| auto].
    destruct (Semver.parse (remainder name)) as [w |] eqn:Ep; [| auto].
    apply add_In in Hv. destruct Hv as [Hv | [-> _]]; [auto |].
    right. exists name. simpl. auto.
  - right. exists name. simpl. auto.
Qed.

Lemma scan_versions_keeps refs : forall vs k,
  In k (map hash_key vs) ->
  In k (map hash_key (fold_left scan_versions refs vs)).
Proof.
  induction refs as [| ref refs IH]; intros vs k Hk; simpl; [exact Hk |].
  apply IH.
  destruct ref as [name | name | name]; simpl; auto.
  destruct (matches name); [| exact Hk].
  destruct (Semver.parse (remainder name)) as [w |]; [| exact Hk].
  unfold PySet.add. destruct (PySet.contains same_version vs w); [exact Hk |].
  rewrite map_app, in_app_iff. now left.
Qed.

(** The parse of the remainder of every such tag is a member. *)
Lemma scan_versions_accepts refs : forall vs name v,
  In (TagReference name) refs -> matches name = true ->
  Semver.parse (remainder name) = Some v ->
  PySet.contains same_version (fold_left scan_versions refs vs) v = true.
Proof.
  induction refs as [| ref refs IH]; intros vs name v Hin Hm Hp; [easy |].
  destruct Hin as [-> | Hin]; [| now apply IH with name].
  simpl. rewrite Hm, Hp.
  apply contains_key, scan_versions_keeps.
  unfold PySet.add.
  destruct (PySet.contains same_version vs v) eqn:E.
  - now apply contains_key.
  - rewrite map_app, in_app_iff. right. now left.
Qed.

Lemma scan_versions_is_set refs : forall vs,
  Spec.is_set vs -> Spec.is_set (fold_left scan_versions refs vs).
Proof.
  induction refs as [| ref refs IH]; intros vs Hs; simpl; [exact Hs |].
  apply IH.
  destruct ref as [name | name | name]; simpl; auto.
  destruct (matches name); [| exact Hs].
  destruct (Semver.parse (remainder name)); [| exact Hs].
  now apply add_is_set.
Qed.

(** References that are not tags of the naming convention play no part. *)
Lemma scan_versions_matching_only refs : forall vs,
  fold_left scan_versions
    (filter (Spec.is_matching_tag version_prefix version_suffix) refs) vs
  = fold_left scan_versions refs vs.
Proof.
  induction refs as [| ref refs IH]; intros vs; [reflexivity |].
  simpl. destruct ref as [name | name | name]; simpl; auto.
  destruct (matches name) eqn:Em; simpl; [| apply IH].
  rewrite Em. apply IH.
Qed.

Lemma contains_string tags name :
  PySet.contains String.eqb tags name = true <-> In name tags.
Proof.
  unfold PySet.contains. rewrite existsb_exists. split.
  - intros [y [H1 H2]]. apply String.eqb_eq in H2. now subst.
  - intros H. exists name. split; [exact H | apply String.eqb_refl].
Qed.

Lemma scan_tags_In refs : forall tags name,
  In name (fold_left Spec.scan_tags refs tags)
  <-> In name tags \/ In (TagReference name) refs.
Proof.
  induction refs as [| ref refs IH]; intros tags name; simpl; [tauto |].
  rewrite IH.
  destruct ref as [n | n | n]; simpl;
    try (split; [intros [H | H]; auto
                | intros [H | [H | H]]; auto; discriminate H]).
  rewrite add_In. split.
  - intros [[H | [-> _]] | H]; auto.
  - intros [H | [[= ->] | H]]; auto.
    destruct (PySet.contains String.eqb tags name) eqn:E; [| auto].
    apply contains_string in E. auto.
Qed.

Lemma scan_log_warning refs msg :
  In (Log WARNING msg) (flat_map scan_log refs)
  <-> exists name, In (TagReference name) refs /\ matches name = true
                   /\ Semver.parse (remainder name) = None
                   /\ msg = Spec.unparsable_warning name.
Proof.
  rewrite in_flat_map. split.
  - intros [ref [Hin Hlog]].
    destruct ref as [name | name | name]; simpl in Hlog; try easy.
    destruct (matches name) eqn:Em; [| easy].
    destruct (Semver.parse (remainder name)) eqn:Ep;
      destruct Hlog as [[=] | []].
    exists name. subst. auto.
  - intros [name [Hin [Hm [Hp ->]]]].
    exists (TagReference name). split; [exact Hin |].
    simpl. rewrite Hm, Hp. now left.
Qed.

Lemma scan_log_only_logs refs : Spec.only_logs (flat_map scan_log refs).
Proof.
  unfold Spec.only_logs. apply Forall_flat_map, Forall_forall.
  intros ref _.
  destruct ref as [name | name | name]; simpl; try constructor.
  destruct (matches name); [| constructor].
  destruct (Semver.parse (remainder name)); repeat constructor.
Qed.

End ScanFacts.

Section ScanProperties.
Import Semver(Version, mkVersion, major, minor, patch, prerelease, build).
Import Proc Main.

Lemma version_set_is_set repo version_prefix version_suffix :
  Spec.is_set (version_set repo version_prefix version_suffix).
Proof.
  rewrite version_set_view. apply scan_versions_is_set. constructor.
Qed.

Lemma tag_set_In repo version_prefix version_suffix name :
  In name (tag_set repo version_prefix version_suffix)
  <-> In (TagReference name) (references repo).
Proof. rewrite tag_set_view, scan_tags_In. simpl. tauto. Qed.

Lemma log_lines_In threshold l msg t :
  In (Log l msg) t -> (level_no threshold <= level_no l)%nat ->
  In (level_name l ++ ": " ++ msg)%string (log_lines threshold t).
Proof.
  intros Hin Hle. unfold log_lines. apply in_flat_map.
  exists (Log l msg). split; [exact Hin |].
  apply Nat.leb_le in Hle. rewrite Hle. now left.
Qed.

(** The version set is empty exactly when no tag of the naming
    convention has a remainder that parses. *)
Lemma version_set_empty_iff repo version_prefix version_suffix :
  version_set repo version_prefix version_suffix = []
  <-> forall name,
        In (TagReference name) (references repo) ->
        Spec.matches_pattern name version_prefix version_suffix = true ->
        Semver.parse (extracted_version name version_prefix version_suffix)
        = None.
Proof.
  split.
  - intros Hnil name Hin Hm.
    destruct (Semver.parse _) as [v |] eqn:Ep; [| reflexivity].
    pose proof (scan_versions_accepts _ _ _ [] _ _ Hin Hm Ep) as Hc.
    rewrite <- version_set_view, Hnil in Hc. discriminate Hc.
  - intros Hnone.
    destruct (version_set repo version_prefix version_suffix) as [| v vs] eqn:E;
      [reflexivity | exfalso].
    assert (Hv : In v (version_set repo version_prefix version_suffix))
      by (rewrite E; now left).
    rewrite version_set_view in Hv. apply scan_versions_In in Hv.
    destruct Hv as [[] | [name [Hin [Hm Hp]]]].
    rewrite (Hnone name Hin Hm) in Hp. discriminate Hp.
Qed.

(** The scan of the tags, in terms of the remainder it extracts.  It
    always completes.  For a tag that follows the naming convention, the
    remainder the scan extracts (with [replace], line 20) is a
    member of the version set when it parses, and every member is the
    parse of such a remainder, which then reads [major.minor.patch] with
    decimal numbers (followed by the prerelease and build parts of the
    version, if any); when it does not parse, a warning naming the tag is
    logged (and written to standard error under [--verbose]), nothing is
    added, and the scan goes on: every tag name ends up in the set of all
    tags.  References that are not tags of the naming convention
    contribute nothing to the version set. *)
Lemma scan_accepts_iff_extraction_parses repo version_prefix version_suffix :
  let run := find_previous_versions repo version_prefix version_suffix in
  let versions := version_set repo version_prefix version_suffix in
  result run = Ret (versions, tag_set repo version_prefix version_suffix)
  /\ (forall name v,
        In (TagReference name) (references repo) ->
        Spec.matches_pattern name version_prefix version_suffix = true ->
        Semver.parse (extracted_version name version_prefix version_suffix)
        = Some v ->
        PySet.contains same_version versions v = true)
  /\ (forall v,
        In v versions ->
        exists name,
          In (TagReference name) (references repo)
          /\ Spec.matches_pattern name version_prefix version_suffix = true
          /\ Semver.parse (extracted_version name version_prefix version_suffix)
             = Some v
          /\ Semver.chomp (extracted_version name version_prefix version_suffix)
             = Semver.to_str v)
  /\ (forall msg,
        In (Log WARNING msg) (trace run)
        <-> exists name,
              In (TagReference name) (references repo)
              /\ Spec.matches_pattern name version_prefix version_suffix = true
              /\ Semver.parse
                   (extracted_version name version_prefix version_suffix)
                 = None
              /\ msg = Spec.unparsable_warning name)
  /\ (forall msg,
        In (Log WARNING msg) (trace run) ->
        In ("WARNING: " ++ msg)%string (stderr true (trace run)))
  /\ (forall name,
        In (TagReference name) (references repo) ->
        In name (tag_set repo version_prefix version_suffix))
  /\ version_set
       (mkRepo (filter (Spec.is_matching_tag version_prefix version_suffix)
                       (references repo))
               (remotes repo))
       version_prefix version_suffix
     = versions.
Proof.
  cbv zeta. repeat apply conj.
  - unfold version_set, tag_set.
    now rewrite find_previous_versions_view.
  - intros name v Hin Hm Hp. rewrite version_set_view.
    now apply scan_versions_accepts with name.
  - intros v Hv. rewrite version_set_view in Hv.
    apply scan_versions_In in Hv.
    destruct Hv as [[] | [name [Hin [Hm Hp]]]].
    exists name. repeat split; try assumption. now apply parse_sound.
  - intros msg. rewrite find_previous_versions_view. apply scan_log_warning.
  - intros msg Hin. apply (log_lines_In INFO WARNING msg _ Hin). simpl. lia.
  - intros name Hin. now apply tag_set_In.
  - rewrite !version_set_view. apply scan_versions_matching_only.
Qed.

(** C2 — When no tag of the repository parses to a version, the version
    set is empty and the selected next version is 1.0.0, whatever the
    major and minor filters. *)
Theorem C2_no_version_gives_1_0_0
    repo version_prefix version_suffix fmajor fminor :
  (forall name,
     In (TagReference name) (references repo) ->
     Spec.matches_pattern name version_prefix version_suffix = true ->
     Semver.parse (extracted_version name version_prefix version_suffix)
     = None) ->
  version_set repo version_prefix version_suffix = []
  /\ next_version repo version_prefix version_suffix fmajor fminor
     = Ret (mkVersion 1 0 0 None None).
Proof.
  intros Hnone. apply version_set_empty_iff in Hnone.
  split; [exact Hnone |].
  unfold next_version. rewrite Hnone. reflexivity.
Qed.

End ScanProperties.

Section NewLineProperties.
Import Semver(Version, mkVersion, major, minor, patch, prerelease, build).
Import Proc Main.

(** An empty filtered set of a non-empty version set means that a major
    filter is set. *)
Lemma filtered_empty_major_set versions fmajor fminor :
  versions <> [] -> filter_versions versions fmajor fminor = [] ->
  exists M, fmajor = Some M.
Proof.
  intros Hv Hf. destruct fmajor as [M |]; [now exists M |].
  simpl in Hf. congruence.
Qed.

(** [filter_minor_version if filter_minor_version else 0] *)
Lemma minor_or_0_truthy fminor :
  match fminor with
  | Some m => if (m =? 0)%Z then 0%Z else m
  | None => 0%Z
  end = Spec.minor_or_0 fminor.
Proof.
  destruct fminor as [m |]; [| reflexivity]. simpl.
  destruct (Z.eqb_spec m 0); congruence.
Qed.

(** C3 — When the version set is not empty, the filtered set is empty and
    the requested major and minor are not negative, the selected next
    version is [filter-major.(filter-minor or 0).0]. *)
Theorem C3_new_line_at_patch_0 versions M fminor :
  versions <> [] ->
  filter_versions versions (Some M) fminor = [] ->
  (0 <= M)%Z ->
  (0 <= Spec.minor_or_0 fminor)%Z ->
  exists v,
    result (increased_version versions
              (filter_versions versions (Some M) fminor) (Some M) fminor)
    = Ret v
    /\ Z.of_N (major v) = M
    /\ Z.of_N (minor v) = Spec.minor_or_0 fminor
    /\ patch v = 0%N
    /\ prerelease v = None /\ build v = None.
Proof.
  intros Hv Hf HM Hm. rewrite Hf.
  exists (mkVersion (Z.to_N M) (Z.to_N (Spec.minor_or_0 fminor)) 0 None None).
  unfold increased_version.
  rewrite (length_eqb_0 _ Hv). cbn [List.length Nat.eqb].
  rewrite minor_or_0_truthy. unfold Semver.Version_init.
  destruct (Z.ltb_spec M 0); [lia |].
  destruct (Z.ltb_spec (Spec.minor_or_0 fminor) 0); [lia |].
  simpl. rewrite !Z2N.id by assumption. repeat split.
Qed.

(** With a negative filter no version is selected: the constructor of
    [Version] raises. *)
Lemma negative_filter_raises versions M fminor :
  versions <> [] ->
  filter_versions versions (Some M) fminor = [] ->
  (M < 0 \/ Spec.minor_or_0 fminor < 0)%Z ->
  increased_version versions
    (filter_versions versions (Some M) fminor) (Some M) fminor
  = ([], Raise ValueError).
Proof.
  intros Hv Hf Hneg. rewrite Hf. unfold increased_version.
  rewrite (length_eqb_0 _ Hv). cbn [List.length Nat.eqb].
  rewrite minor_or_0_truthy. unfold Semver.Version_init.
  destruct (Z.ltb_spec M 0); [reflexivity |].
  destruct (Z.ltb_spec (Spec.minor_or_0 fminor) 0); [reflexivity | lia].
Qed.

End NewLineProperties.

(* ===================================================================== *)
(** ** Rendering *)
(* ===================================================================== *)

Section RenderingProperties.
Import Semver(Version, mkVersion, major, minor, patch, prerelease, build).
Import Proc Main.
#[local] Open Scope string_scope.

Lemma str_app_nil_r (s : string) : s ++ "" = s.
Proof. induction s as [| c s IH]; simpl; [reflexivity | now rewrite IH]. Qed.

Lemma str_app_assoc (a b c : string) : (a ++ b) ++ c = a ++ b ++ c.
Proof. induction a as [| x a IH]; simpl; [reflexivity | now rewrite IH]. Qed.

(** A version without prerelease and build parts prints as
    [major.minor.patch]. *)
Lemma to_str_plain v :
  prerelease v = None -> build v = None ->
  Semver.to_str v
  = PyStr.str_of_int (major v) ++ "." ++ PyStr.str_of_int (minor v) ++ "."
    ++ PyStr.str_of_int (patch v).
Proof.
  intros Hp Hb. unfold Semver.to_str. rewrite Hp, Hb.
  now rewrite !str_app_nil_r.
Qed.

(** The selected version never carries a prerelease or a build part. *)
Lemma increased_version_plain versions filtered fmajor fminor v :
  result (increased_version versions filtered fmajor fminor) = Ret v ->
  prerelease v = None /\ build v = None.
Proof.
  unfold increased_version.
  destruct (List.length versions =? 0)%nat.
  - simpl. now intros [= <-].
  - destruct (List.length filtered =? 0)%nat.
    + destruct fmajor as [M |]; [| discriminate].
      destruct (Semver.Version_init M _ 0) as [w |] eqn:E; [| discriminate].
      simpl. intros [= <-]. unfold Semver.Version_init in E.
      destruct (_ || _)%bool; [discriminate |]. now injection E as <-.
    + destruct (PySet.max Semver.gt filtered) as [m |]; [| discriminate].
      simpl. now intros [= <-].
Qed.

(** C8 — Rendering of a selected version.  In snapshot mode the name is
    [prefix major . minor -SNAPSHOT suffix]: it holds the marker
    [SNAPSHOT] and is the same whatever the patch number.  Otherwise the
    name is [prefix major . minor . patch suffix]. *)
Theorem C8_rendered_name versions filtered fmajor fminor v
    (version_prefix version_suffix : string) :
  result (increased_version versions filtered fmajor fminor) = Ret v ->
  generate_version_name v version_prefix version_suffix true (Some "SNAPSHOT")
  = version_prefix ++ PyStr.str_of_int (major v) ++ "."
    ++ PyStr.str_of_int (minor v) ++ "-SNAPSHOT" ++ version_suffix
  /\ (forall p,
        generate_version_name
          (mkVersion (major v) (minor v) p (prerelease v) (build v))
          version_prefix version_suffix true (Some "SNAPSHOT")
        = generate_version_name v version_prefix version_suffix true
            (Some "SNAPSHOT"))
  /\ Spec.occurs_in "SNAPSHOT"
       (generate_version_name v version_prefix version_suffix true
          (Some "SNAPSHOT"))
  /\ generate_version_name v version_prefix version_suffix false
       (Some "SNAPSHOT")
     = version_prefix ++ PyStr.str_of_int (major v) ++ "."
       ++ PyStr.str_of_int (minor v) ++ "."
       ++ PyStr.str_of_int (patch v) ++ version_suffix.
Proof.
  intros Hsel. apply increased_version_plain in Hsel as [Hp Hb].
  repeat apply conj.
  - reflexivity.
  - reflexivity.
  - exists (version_prefix ++ PyStr.str_of_int (major v) ++ "."
            ++ PyStr.str_of_int (minor v) ++ "-"), version_suffix.
    change (generate_version_name v version_prefix version_suffix true
              (Some "SNAPSHOT"))
      with (version_prefix ++ PyStr.str_of_int (major v) ++ "."
            ++ PyStr.str_of_int (minor v) ++ "-SNAPSHOT" ++ version_suffix).
    now rewrite !str_app_assoc.
  - change (generate_version_name v version_prefix version_suffix false
              (Some "SNAPSHOT"))
      with (version_prefix ++ Semver.to_str v ++ version_suffix).
    rewrite (to_str_plain v Hp Hb). now rewrite !str_app_assoc.
Qed.

End RenderingProperties.

(* ===================================================================== *)
(** ** The whole command *)
(* ===================================================================== *)

Section ProcessFacts.
Import Semver(Version).
Import Proc Main.

Lemma for_each_view {X} (f : X -> list event) (body : X -> M unit) l :
  (forall x, body x = (f x, Ret tt)) ->
  for_each l body = (flat_map f l, Ret tt).
Proof.
  intros Hbody. induction l as [| x l IH]; [reflexivity |].
  cbn [for_each flat_map]. rewrite Hbody, IH. reflexivity.
Qed.

Lemma created_tags_app t u :
  created_tags (t ++ u) = created_tags t ++ created_tags u.
Proof. apply flat_map_app. Qed.

Lemma pushes_app t u : pushes (t ++ u) = pushes t ++ pushes u.
Proof. apply flat_map_app. Qed.

Lemma stdout_app t u : stdout (t ++ u) = stdout t ++ stdout u.
Proof. apply flat_map_app. Qed.

Lemma quiet_app t u : Spec.quiet t -> Spec.quiet u -> Spec.quiet (t ++ u).
Proof.
  unfold Spec.quiet. intros [H1 [H2 H3]] [H4 [H5 H6]].
  now rewrite created_tags_app, pushes_app, stdout_app, H1, H2, H3, H4, H5, H6.
Qed.

Lemma quiet_flat_map {X} (f : X -> list event) l :
  (forall x, Spec.quiet (f x)) -> Spec.quiet (flat_map f l).
Proof.
  intros Hf. induction l as [| x l IH]; [now repeat split |].
  simpl. now apply quiet_app.
Qed.

Lemma only_logs_quiet t : Spec.only_logs t -> Spec.quiet t.
Proof.
  unfold Spec.only_logs. induction 1 as [| e t He _ IH]; [now repeat split |].
  change (e :: t) with ([e] ++ t). apply quiet_app; [| exact IH].
  destruct e; try contradiction. now repeat split.
Qed.

Lemma fetch_and_pull_remotes_view repo :
  fetch_and_pull_remotes repo
  = (flat_map (fun remote =>
                 [Log INFO ("Found remote " ++ remote)%string;
                  Fetch remote; Pull remote])
              (remotes repo),
     Ret tt).
Proof. unfold fetch_and_pull_remotes. now apply for_each_view. Qed.

Lemma push_new_tags_to_remotes_view repo new_tag :
  push_new_tags_to_remotes repo new_tag
  = (flat_map (fun remote =>
                 [Log INFO ("Found remote " ++ remote)%string;
                  Push remote new_tag])
              (remotes repo),
     Ret tt).
Proof. unfold push_new_tags_to_remotes. now apply for_each_view. Qed.

(** Pulling and reading the tags always succeed, and neither creates a
    tag, pushes or prints. *)
Lemma pull_part_run repo pull_before :
  Spec.pull_part repo pull_before
  = (trace (Spec.pull_part repo pull_before), Ret tt)
  /\ Spec.quiet (trace (Spec.pull_part repo pull_before)).
Proof.
  unfold Spec.pull_part. destruct pull_before.
  - rewrite fetch_and_pull_remotes_view. split; [reflexivity |].
    apply quiet_flat_map. intros remote. now repeat split.
  - split; [reflexivity | now repeat split].
Qed.

Lemma find_previous_versions_run repo version_prefix version_suffix :
  find_previous_versions repo version_prefix version_suffix
  = (trace (find_previous_versions repo version_prefix version_suffix),
     Ret (version_set repo version_prefix version_suffix,
          tag_set repo version_prefix version_suffix))
  /\ Spec.only_logs
       (trace (find_previous_versions repo version_prefix version_suffix)).
Proof.
  unfold version_set, tag_set.
  rewrite find_previous_versions_view. split; [reflexivity |].
  apply scan_log_only_logs.
Qed.

Lemma increased_version_only_logs versions filtered fmajor fminor :
  Spec.only_logs (trace (increased_version versions filtered fmajor fminor)).
Proof.
  unfold increased_version, Spec.only_logs.
  destruct (List.length versions =? 0)%nat; [constructor |].
  destruct (List.length filtered =? 0)%nat.
  - destruct fmajor; [| constructor].
    destruct (Semver.Version_init _ _ _); constructor.
  - destruct (PySet.max Semver.gt filtered); repeat constructor.
Qed.

(** The command, as a function of the three phases that precede the
    creation of the tag. *)
Lemma calculate_new_version_view repo version_prefix version_suffix
    fmajor fminor create_no_git_tag pull_before create_snapshot_version
    verbose :
  let versions := version_set repo version_prefix version_suffix in
  let iv :=
    increased_version versions (filter_versions versions fmajor fminor)
                      fmajor fminor in
  let before :=
    trace (Spec.pull_part repo pull_before)
    ++ trace (find_previous_versions repo version_prefix version_suffix)
    ++ trace iv in
  calculate_new_version repo version_prefix version_suffix fmajor fminor
    create_no_git_tag pull_before create_snapshot_version verbose
  = match result iv with
    | Ret v =>
        let name :=
          generate_version_name v version_prefix version_suffix
            create_snapshot_version (Some "SNAPSHOT"%string) in
        if create_no_git_tag then (before ++ [Print name], Ret tt)
        else if PySet.contains String.eqb
                  (tag_set repo version_prefix version_suffix) name
        then (before ++ [Log ERROR (Spec.collision_error name)], Exit 1)
        else (before ++ CreateTag name
                :: trace (push_new_tags_to_remotes repo name)
                ++ [Print name],
              Ret tt)
    | Exit c => (before, Exit c)
    | Raise e => (before, Raise e)
    end.
Proof.
  cbv zeta. unfold calculate_new_version.
  fold (Spec.pull_part repo pull_before).
  destruct (pull_part_run repo pull_before) as [-> _].
  destruct (find_previous_versions_run repo version_prefix version_suffix)
    as [-> _].
  cbn [bind trace fst].
  destruct (increased_version _ _ fmajor fminor) as [t2 [v | c | e]];
    cbn [result snd trace fst]; rewrite ?app_nil_r; try reflexivity.
  unfold Spec.collision_error.
  destruct create_no_git_tag; cbv [bind emit sys_exit ret negb]; cbv zeta.
  - rewrite <- !app_assoc. reflexivity.
  - destruct (PySet.contains String.eqb _ _).
    + rewrite <- !app_assoc. reflexivity.
    + rewrite push_new_tags_to_remotes_view. cbn [trace fst].
      rewrite <- !app_assoc. reflexivity.
Qed.

End ProcessFacts.

Section ProcessProperties.
Import Semver(Version, mkVersion).
Import Proc Main.

Lemma before_tag_quiet repo version_prefix version_suffix fmajor fminor
    pull_before :
  let versions := version_set repo version_prefix version_suffix in
  Spec.quiet
    (trace (Spec.pull_part repo pull_before)
     ++ trace (find_previous_versions repo version_prefix version_suffix)
     ++ trace (increased_version versions
                 (filter_versions versions fmajor fminor) fmajor fminor)).
Proof.
  cbv zeta. apply quiet_app; [apply pull_part_run |].
  apply quiet_app; apply only_logs_quiet.
  - apply find_previous_versions_run.
  - apply increased_version_only_logs.
Qed.

Lemma next_tag_name_Some repo version_prefix version_suffix fmajor fminor
    create_snapshot_version name :
  next_tag_name repo version_prefix version_suffix fmajor fminor
                create_snapshot_version = Some name ->
  let versions := version_set repo version_prefix version_suffix in
  exists v,
    result (increased_version versions
              (filter_versions versions fmajor fminor) fmajor fminor) = Ret v
    /\ name = generate_version_name v version_prefix version_suffix
                create_snapshot_version (Some "SNAPSHOT"%string).
Proof.
  unfold next_tag_name, next_version. cbv zeta.
  destruct (result _) as [v | c | e]; try discriminate.
  intros [= <-]. now exists v.
Qed.

(** C4 — Without the dry-run flag, an invocation whose rendered tag name
    is already among the tag names of the repository fails: the collision
    is reported on standard error, with or without [--verbose], the exit
    status is 1, no tag is created, nothing is pushed, nothing is
    printed. *)
Theorem C4_collision_is_fatal repo version_prefix version_suffix
    fmajor fminor pull_before create_snapshot_version verbose name :
  next_tag_name repo version_prefix version_suffix fmajor fminor
                create_snapshot_version = Some name ->
  In (TagReference name) (references repo) ->
  let run :=
    calculate_new_version repo version_prefix version_suffix fmajor fminor
      false pull_before create_snapshot_version verbose in
  result run = Exit 1
  /\ exit_status run = 1%Z
  /\ In ("ERROR: " ++ Spec.collision_error name)%string
        (stderr verbose (trace run))
  /\ created_tags (trace run) = []
  /\ pushes (trace run) = []
  /\ stdout (trace run) = [].
Proof.
  intros Hname Hin run. subst run.
  apply next_tag_name_Some in Hname. cbv zeta in Hname.
  destruct Hname as [v [Hv ->]].
  rewrite calculate_new_version_view. cbv zeta. rewrite Hv.
  apply tag_set_In with (version_prefix := version_prefix)
                        (version_suffix := version_suffix) in Hin.
  apply contains_string in Hin. rewrite Hin.
  unfold exit_status. cbn [result snd trace fst].
  assert (Hquiet : Spec.quiet
            ((trace (Spec.pull_part repo pull_before)
              ++ trace (find_previous_versions repo version_prefix
                          version_suffix)
              ++ trace (increased_version
                          (version_set repo version_prefix version_suffix)
                          (filter_versions
                             (version_set repo version_prefix version_suffix)
                             fmajor fminor) fmajor fminor))
             ++ [Log ERROR
                   (Spec.collision_error
                      (generate_version_name v version_prefix version_suffix
                         create_snapshot_version (Some "SNAPSHOT"%string)))])).
  { apply quiet_app; [apply before_tag_quiet | now repeat split]. }
  destruct Hquiet as [Hc [Hp Ho]].
  repeat apply conj; try reflexivity; try assumption.
  unfold stderr.
  apply (log_lines_In _ ERROR); [| destruct verbose; simpl; lia].
  apply in_or_app. right. now left.
Qed.

(** C10 — With the dry-run flag the existing tag names are not consulted:
    whenever a tag name is computed it is printed, the exit status is 0,
    no tag is created and nothing is pushed, whether or not the name is
    already a tag of the repository. *)
Theorem C10_dry_run_never_collides repo version_prefix version_suffix
    fmajor fminor pull_before create_snapshot_version verbose name :
  next_tag_name repo version_prefix version_suffix fmajor fminor
                create_snapshot_version = Some name ->
  let run :=
    calculate_new_version repo version_prefix version_suffix fmajor fminor
      true pull_before create_snapshot_version verbose in
  result run = Ret tt
  /\ exit_status run = 0%Z
  /\ stdout (trace run) = [name]
  /\ created_tags (trace run) = []
  /\ pushes (trace run) = [].
Proof.
  intros Hname run. subst run.
  apply next_tag_name_Some in Hname. cbv zeta in Hname.
  destruct Hname as [v [Hv ->]].
  rewrite calculate_new_version_view. cbv zeta. rewrite Hv.
  unfold exit_status. cbn [result snd trace fst].
  pose proof (before_tag_quiet repo version_prefix version_suffix
                fmajor fminor pull_before) as [Hc [Hp Ho]].
  rewrite app_assoc, created_tags_app, pushes_app, stdout_app.
  rewrite <- app_assoc, Hc, Hp, Ho. repeat split.
Qed.

End ProcessProperties.

(* ===================================================================== *)
(** ** Printing and parsing a version *)
(* ===================================================================== *)

Section RoundTripFacts.
Import Semver(Version, mkVersion, major, minor, patch, prerelease, build).
Import PyStr.
#[local] Open Scope string_scope.

Lemma uint_digits d : forallb_str is_digit (NilEmpty.string_of_uint d) = true.
Proof. induction d; simpl; auto. Qed.

Lemma str_of_int_digits n : forallb_str is_digit (str_of_int n) = true.
Proof.
  unfold str_of_int, NilZero.string_of_uint.
  destruct (N.to_uint n); try reflexivity; apply uint_digits.
Qed.

Lemma nzhead_not_D0 d d' : Decimal.nzhead d <> Decimal.D0 d'.
Proof. induction d; simpl; try discriminate. exact IHd. Qed.

(** The decimal numeral of a number is not empty and has no leading
    zero. *)
Lemma str_of_int_canonical n :
  str_of_int n <> "" /\ Semver.leading_zero (str_of_int n) = false.
Proof.
  unfold str_of_int.
  pose proof (DecimalN.Unsigned.to_of (N.to_uint n)) as H.
  rewrite DecimalN.Unsigned.of_to in H. rewrite H.
  unfold Decimal.unorm.
  destruct (Decimal.nzhead (N.to_uint n))
    as [| d | d | d | d | d | d | d | d | d | d] eqn:E;
    try (split; [discriminate
                | simpl; now destruct (NilEmpty.string_of_uint d)]).
  - split; [discriminate | reflexivity].
  - now apply nzhead_not_D0 in E.
Qed.

Lemma int_of_str_of_int n : int_of_str (str_of_int n) = Some n.
Proof.
  unfold int_of_str, str_of_int.
  pose proof (DecimalN.Unsigned.of_to n) as Hn.
  destruct (N.to_uint n) eqn:E;
    try (rewrite NilZero.usu by discriminate; cbn [option_map];
         now rewrite Hn).
  simpl in Hn. now subst n.
Qed.

Lemma span_all p ds rest :
  forallb_str p ds = true ->
  match rest with String c _ => p c = false | EmptyString => True end ->
  span p (ds ++ rest) = (ds, rest).
Proof.
  intros Hds Hrest. induction ds as [| c ds IH]; simpl.
  - destruct rest as [| c r]; [reflexivity |]. simpl. now rewrite Hrest.
  - simpl in Hds. apply andb_true_iff in Hds as [Hc Hds].
    now rewrite Hc, (IH Hds).
Qed.

Lemma numeric_str_of_int n rest :
  Spec.no_digit_ahead rest ->
  Semver.numeric (str_of_int n ++ rest) = Some (n, rest).
Proof.
  intros Hrest. unfold Semver.numeric.
  rewrite (span_all is_digit _ _ (str_of_int_digits n) Hrest).
  destruct (str_of_int_canonical n) as [Hne Hlz].
  rewrite Hlz, int_of_str_of_int.
  now destruct (str_of_int n).
Qed.


Lemma str_length_app (a b : string) :
  String.length (a ++ b) = (String.length a + String.length b)%nat.
Proof. induction a as [| c a IH]; simpl; [reflexivity | now rewrite IH]. Qed.

Lemma forallb_str_app p (a b : string) :
  forallb_str p (a ++ b) = forallb_str p a && forallb_str p b.
Proof.
  induction a as [| c a IH]; simpl; [reflexivity |].
  now rewrite IH, andb_assoc.
Qed.

Lemma forallb_str_impl (p q : ascii -> bool) s :
  (forall c, p c = true -> q c = true) ->
  forallb_str p s = true -> forallb_str q s = true.
Proof.
  intros Hpq. induction s as [| c s IH]; simpl; [reflexivity |].
  rewrite !andb_true_iff. intros [Hc Hs]. auto.
Qed.

(** A non-empty string ends with one of its characters. *)
Lemma last_char p s :
  s <> "" -> forallb_str p s = true ->
  exists a c, s = a ++ String c "" /\ p c = true.
Proof.
  induction s as [| x s IH]; [congruence | intros _ Hall].
  simpl in Hall. apply andb_true_iff in Hall as [Hx Hs].
  destruct s as [| y s'].
  - exists "", x. auto.
  - destruct (IH ltac:(discriminate) Hs) as [a [c [E Hc]]].
    exists (String x a), c. simpl. now rewrite <- E.
Qed.

Lemma endswith_last a c d :
  endswith (a ++ String c "") (String d "") = Ascii.eqb c d.
Proof.
  unfold endswith. induction a as [| x a IH].
  - simpl. now destruct (Ascii.eqb c d).
  - change (String x a ++ String c "") with (String x (a ++ String c "")).
    cbn [String.length].
    rewrite str_length_app in *. cbn [String.length] in *.
    replace (String.length a + 1)%nat with (S (String.length a)) in * by lia.
    cbn [Nat.ltb Nat.leb Nat.sub] in *. rewrite Nat.sub_0_r in *.
    cbn [substring]. exact IH.
Qed.

Lemma chomp_keeps a c :
  Ascii.eqb c Semver.newline = false ->
  Semver.chomp (a ++ String c "") = a ++ String c "".
Proof. intros Hc. unfold Semver.chomp. now rewrite endswith_last, Hc. Qed.

Lemma digit_not_newline c :
  is_digit c = true -> Ascii.eqb c Semver.newline = false.
Proof.
  intros Hc. destruct (Ascii.eqb_spec c Semver.newline) as [-> |];
    [discriminate Hc | reflexivity].
Qed.

Lemma expect_head c t : Semver.expect c (String c t) = Some t.
Proof. unfold Semver.expect. now rewrite Ascii.eqb_refl. Qed.

(** Parsing what [str] prints for a version without prerelease and build
    parts gives the version back. *)
Lemma parse_to_str a b c :
  Semver.parse (Semver.to_str (mkVersion a b c None None))
  = Some (mkVersion a b c None None).
Proof.
  rewrite to_str_plain by reflexivity. cbn [major minor patch].
  unfold Semver.parse.
  assert (Hchomp : forall s,
             Semver.chomp (s ++ str_of_int c) = s ++ str_of_int c).
  { intros s.
    destruct (last_char is_digit (str_of_int c)
                (proj1 (str_of_int_canonical c)) (str_of_int_digits c))
      as [x [d [E Hd]]].
    rewrite E, <- str_app_assoc.
    apply chomp_keeps. now apply digit_not_newline. }
  rewrite <- !str_app_assoc, Hchomp, !str_app_assoc.
  rewrite numeric_str_of_int by reflexivity.
  cbn [append]. rewrite expect_head.
  rewrite numeric_str_of_int by reflexivity.
  cbn [append]. rewrite expect_head.
  rewrite <- (str_app_nil_r (str_of_int c)).
  rewrite numeric_str_of_int by exact I.
  reflexivity.
Qed.

Lemma substring_skip (p t : string) m :
  substring (String.length p) m (p ++ t) = substring 0 m t.
Proof. induction p as [| c p IH]; simpl; [reflexivity | exact IH]. Qed.

Lemma substring_head (s x : string) :
  substring 0 (String.length s) (s ++ x) = s.
Proof.
  induction s as [| c s IH]; simpl; [now destruct x | now rewrite IH].
Qed.

(** Stripping the affixes of [prefix ++ s ++ suffix] leaves [s]. *)
Lemma strip_affixes_app (version_prefix s version_suffix : string) :
  Spec.strip_affixes (version_prefix ++ s ++ version_suffix)
                     version_prefix version_suffix
  = s.
Proof.
  unfold Spec.strip_affixes. rewrite !str_length_app.
  replace (String.length version_prefix
           + (String.length s + String.length version_suffix)
           - String.length version_prefix - String.length version_suffix)%nat
    with (String.length s) by lia.
  now rewrite substring_skip, substring_head.
Qed.

(** The round trip of the specification holds when the affixes are
    stripped at the two ends only. *)
Lemma round_trip_with_exact_strip v (version_prefix version_suffix : string) :
  prerelease v = None -> build v = None ->
  Semver.parse
    (Spec.strip_affixes
       (Main.generate_version_name v version_prefix version_suffix false
          (Some "SNAPSHOT"))
       version_prefix version_suffix)
  = Some v.
Proof.
  destruct v as [a b c pre bld]. cbn [prerelease build]. intros -> ->.
  change (Main.generate_version_name (mkVersion a b c None None)
            version_prefix version_suffix false (Some "SNAPSHOT"))
    with (version_prefix ++ Semver.to_str (mkVersion a b c None None)
          ++ version_suffix).
  rewrite strip_affixes_app. apply parse_to_str.
Qed.

Lemma prefix_empty s : String.prefix "" s = true.
Proof. now destruct s. Qed.

Lemma replace_empty_pattern_id s : replace s "" "" = s.
Proof.
  unfold replace. simpl.
  induction s as [| c s IH]; simpl; [reflexivity | now rewrite IH].
Qed.

Lemma replace_scan_absent (c : ascii) s :
  forallb_str (fun x => negb (Ascii.eqb x c)) s = true ->
  replace_scan 0 s (String c "") "" = s.
Proof.
  induction s as [| x s IH]; [reflexivity |].
  simpl. intros H. apply andb_true_iff in H as [Hx Hs].
  destruct (ascii_dec c x) as [-> | _].
  - now rewrite Ascii.eqb_refl in Hx.
  - now rewrite (IH Hs).
Qed.

(** Under the default affixes, prefix [v] and no suffix, the script reads
    back every version without prerelease and build parts from the name
    it renders for it: such a name holds no second [v]. *)
Lemma round_trip_default_affixes v :
  prerelease v = None -> build v = None ->
  Semver.parse
    (Main.extracted_version
       (Main.generate_version_name v "v" "" false (Some "SNAPSHOT")) "v" "")
  = Some v.
Proof.
  destruct v as [a b c pre bld]. cbn [prerelease build]. intros -> ->.
  change (Main.generate_version_name (mkVersion a b c None None)
            "v" "" false (Some "SNAPSHOT"))
    with (String "v" (Semver.to_str (mkVersion a b c None None) ++ "")).
  rewrite str_app_nil_r. unfold Main.extracted_version.
  rewrite replace_empty_pattern_id.
  assert (Hscan : replace
                    (String "v" (Semver.to_str (mkVersion a b c None None)))
                    "v" ""
                  = Semver.to_str (mkVersion a b c None None)).
  { unfold replace. cbn [replace_scan startswith String.prefix].
    destruct (ascii_dec "v" "v") as [_ | Hne]; [| now destruct Hne].
    rewrite prefix_empty. cbn [String.length Nat.sub append].
    apply replace_scan_absent.
    rewrite to_str_plain by reflexivity. cbn [major minor patch].
    rewrite !forallb_str_app.
    assert (Hd : forall n,
               forallb_str (fun x => negb (Ascii.eqb x "v")) (str_of_int n)
               = true).
    { intros n. apply forallb_str_impl with is_digit;
        [| apply str_of_int_digits].
      intros x Hx. destruct (Ascii.eqb_spec x "v") as [-> |];
        [discriminate Hx | reflexivity]. }
    now rewrite !Hd. }
  rewrite Hscan. apply parse_to_str.
Qed.

End RoundTripFacts.

(* ===================================================================== *)
(** ** The remainder of a tag name *)
(* ===================================================================== *)

Section RemainderProperties.
Import Semver(Version, mkVersion).
Import Proc Main.
#[local] Open Scope string_scope.

(** C5 — The remainder handed to the parser is meant to be the tag name
    without its leading prefix and trailing suffix.  For the tag
    [v1.0.0-dev] under the default prefix [v] and the empty suffix that
    is [1.0.0-dev]; the script parses [1.0.0-de], because [replace] also
    removes the [v] inside the name. *)
Theorem C5_remainder_loses_inner_occurrences :
  Spec.matches_pattern "v1.0.0-dev" "v" "" = true
  /\ Spec.strip_affixes "v1.0.0-dev" "v" "" = "1.0.0-dev"
  /\ extracted_version "v1.0.0-dev" "v" "" = "1.0.0-de"
  /\ Semver.parse (extracted_version "v1.0.0-dev" "v" "")
     = Some (mkVersion 1 0 0 (Some "de") None)
  /\ Semver.parse (Spec.strip_affixes "v1.0.0-dev" "v" "")
     = Some (mkVersion 1 0 0 (Some "dev") None).
Proof. repeat split; reflexivity. Qed.

(** C9 — Rendering 1.2.3 under the prefix [v] and the suffix [-dev]
    gives [v1.2.3-dev].  Stripping the affixes leaves [1.2.3], which
    parses back to 1.2.3; the script instead extracts [1.2.3-de] and
    reads the version 1.2.3-de. *)
Theorem C9_round_trip_broken_by_replace :
  let v := mkVersion 1 2 3 None None in
  let name := generate_version_name v "v" "-dev" false (Some "SNAPSHOT") in
  name = "v1.2.3-dev"
  /\ Spec.matches_pattern name "v" "-dev" = true
  /\ Semver.parse (Spec.strip_affixes name "v" "-dev") = Some v
  /\ extracted_version name "v" "-dev" = "1.2.3-de"
  /\ Semver.parse (extracted_version name "v" "-dev")
     = Some (mkVersion 1 2 3 (Some "de") None)
  /\ Semver.parse (extracted_version name "v" "-dev") <> Some v.
Proof. cbv zeta. repeat split; try reflexivity. discriminate. Qed.

(** C6 — A tag that follows the naming convention is meant to enter the
    version set exactly when its name without the prefix and the suffix
    parses, with a warning otherwise.  The tag [vv1.0.0] under the prefix
    [v]: the stripped name [v1.0.0] does not parse, yet the scan extracts
    [1.0.0], accepts the version 1.0.0 and logs no warning.  The tag
    [v1.0.0-v]: the stripped name [1.0.0-v] parses, yet the scan extracts
    [1.0.0-], warns and accepts nothing. *)
Theorem C6_acceptance_follows_replace_not_strip :
  (Spec.matches_pattern "vv1.0.0" "v" "" = true
   /\ Spec.strip_affixes "vv1.0.0" "v" "" = "v1.0.0"
   /\ Semver.parse (Spec.strip_affixes "vv1.0.0" "v" "") = None
   /\ find_previous_versions (mkRepo [TagReference "vv1.0.0"] []) "v" ""
      = ([Log INFO "Tag vv1.0.0 found"],
         Ret ([mkVersion 1 0 0 None None], ["vv1.0.0"])))
  /\ (Spec.matches_pattern "v1.0.0-v" "v" "" = true
      /\ Spec.strip_affixes "v1.0.0-v" "v" "" = "1.0.0-v"
      /\ Semver.parse (Spec.strip_affixes "v1.0.0-v" "v" "")
         = Some (mkVersion 1 0 0 (Some "v") None)
      /\ find_previous_versions (mkRepo [TagReference "v1.0.0-v"] []) "v" ""
         = ([Log WARNING (Spec.unparsable_warning "v1.0.0-v")],
            Ret ([], ["v1.0.0-v"]))).
Proof. repeat split; reflexivity. Qed.

End RemainderProperties.

(* ===================================================================== *)
(** ** The properties at concrete repositories *)
(* ===================================================================== *)

Section Instances.
Import Semver(Version, mkVersion, major, minor, patch, prerelease, build,
              bump_patch).
Import Proc Main.
#[local] Open Scope string_scope.

(** Versions 1.0.0, 1.1.0, 1.1.5 and 2.0.0 filtered by major 1: the next
    version is 1.1.6. *)
Lemma C1_next_after_1_1_5 :
  let versions :=
    [mkVersion 1 0 0 None None; mkVersion 1 1 0 None None;
     mkVersion 1 1 5 None None; mkVersion 2 0 0 None None] in
  filter_versions versions (Some 1%Z) None
  = [mkVersion 1 0 0 None None; mkVersion 1 1 0 None None;
     mkVersion 1 1 5 None None]
  /\ result (increased_version versions
               (filter_versions versions (Some 1%Z) None) (Some 1%Z) None)
     = Ret (mkVersion 1 1 6 None None).
Proof.
  cbv zeta. split; [reflexivity |].
  assert (Hne : filter_versions
                  [mkVersion 1 0 0 None None; mkVersion 1 1 0 None None;
                   mkVersion 1 1 5 None None; mkVersion 2 0 0 None None]
                  (Some 1%Z) None <> []) by (vm_compute; discriminate).
  destruct (C1_next_is_bump_patch_of_max _ _ (Some 1%Z) None Hne
              (filter_versions_incl _ _ _)) as [_ Hall].
  apply (Hall (mkVersion 1 1 5 None None)).
  split.
  - vm_compute. tauto.
  - intros v Hv. vm_compute in Hv.
    destruct Hv as [<- | [<- | [<- | []]]]; unfold Spec.triple_le; simpl; lia.
Defined.

(** A repository whose tags do not parse: the next version is 1.0.0 even
    under the filters 3 and 1. *)
Lemma C2_unparsable_tags_only :
  let repo := mkRepo [TagReference "junk"; TagReference "vfoo";
                      Head "main"] [] in
  version_set repo "v" "" = []
  /\ next_version repo "v" "" (Some 3%Z) (Some 1%Z)
     = Ret (mkVersion 1 0 0 None None).
Proof.
  cbv zeta. apply C2_no_version_gives_1_0_0.
  intros name [H | [H | [H | []]]] Hm; try discriminate H;
    injection H as <-; [discriminate Hm | reflexivity].
Defined.

(** Tag [v1.0.0] and the major filter 3: the next version is 3.0.0. *)
Lemma C3_new_major_line :
  let versions := [mkVersion 1 0 0 None None] in
  exists v,
    result (increased_version versions
              (filter_versions versions (Some 3%Z) None) (Some 3%Z) None)
    = Ret v
    /\ Z.of_N (major v) = 3%Z /\ Z.of_N (minor v) = 0%Z /\ patch v = 0%N
    /\ prerelease v = None /\ build v = None.
Proof.
  cbv zeta.
  apply (C3_new_line_at_patch_0 [mkVersion 1 0 0 None None] 3%Z None).
  - discriminate.
  - reflexivity.
  - lia.
  - simpl. lia.
Defined.

(** The condition on the sign cannot be dropped: with the major filter
    -1 the version set is not empty, the filtered set is, and no version
    is selected. *)
Lemma C3_negative_major_selects_nothing :
  let repo := mkRepo [TagReference "v1.0.0"] [] in
  let versions := version_set repo "v" "" in
  versions <> []
  /\ filter_versions versions (Some (-1)%Z) None = []
  /\ next_version repo "v" "" (Some (-1)%Z) None = Raise ValueError
  /\ forall v, next_version repo "v" "" (Some (-1)%Z) None <> Ret v.
Proof.
  cbv zeta. repeat split; try reflexivity; vm_compute; discriminate.
Qed.

(** A snapshot tag that exists already: the run stops with status 1. *)
Lemma C4_snapshot_collision :
  let repo := mkRepo [TagReference "v1.0-SNAPSHOT"; TagReference "v1.0.1"]
                     ["origin"] in
  let run := calculate_new_version repo "v" "" None None
               false true true false in
  result run = Exit 1
  /\ exit_status run = 1%Z
  /\ In ("ERROR: " ++ Spec.collision_error "v1.0-SNAPSHOT")
        (stderr false (trace run))
  /\ created_tags (trace run) = []
  /\ pushes (trace run) = []
  /\ stdout (trace run) = [].
Proof.
  cbv zeta.
  apply (C4_collision_is_fatal
           (mkRepo [TagReference "v1.0-SNAPSHOT"; TagReference "v1.0.1"]
                   ["origin"])
           "v" "" None None true true false "v1.0-SNAPSHOT").
  - reflexivity.
  - simpl. auto.
Defined.

(** The condition on the dry-run flag cannot be dropped: the same
    repository with [--createNoGitTag]; the name exists, it is printed and
    the exit status is 0. *)
Lemma C4_dry_run_collision_succeeds :
  let repo := mkRepo [TagReference "v1.0-SNAPSHOT"; TagReference "v1.0.1"]
                     ["origin"] in
  let run := calculate_new_version repo "v" "" None None
               true true true false in
  next_tag_name repo "v" "" None None true = Some "v1.0-SNAPSHOT"
  /\ In "v1.0-SNAPSHOT" (tag_set repo "v" "")
  /\ result run = Ret tt
  /\ exit_status run = 0%Z
  /\ stdout (trace run) = ["v1.0-SNAPSHOT"]
  /\ stderr false (trace run) = [].
Proof.
  cbv zeta. repeat split; try reflexivity. vm_compute. auto.
Qed.

(** The scan of a repository with a foreign tag, an unparsable tag and a
    branch. *)
Lemma scan_of_mixed_tags :
  let repo := mkRepo [TagReference "v1.0.0"; TagReference "1.5.0";
                      TagReference "vfoo"; Head "main";
                      TagReference "v1.1.0"] [] in
  PySet.contains same_version (version_set repo "v" "")
    (mkVersion 1 1 0 None None) = true
  /\ In (Log WARNING (Spec.unparsable_warning "vfoo"))
        (trace (find_previous_versions repo "v" ""))
  /\ In "1.5.0" (tag_set repo "v" "").
Proof.
  cbv zeta.
  destruct (scan_accepts_iff_extraction_parses
              (mkRepo [TagReference "v1.0.0"; TagReference "1.5.0";
                       TagReference "vfoo"; Head "main";
                       TagReference "v1.1.0"] []) "v" "")
    as [_ [Hacc [_ [Hwarn [_ [Htags _]]]]]].
  repeat apply conj.
  - apply (Hacc "v1.1.0"); [simpl; tauto | reflexivity | reflexivity].
  - apply Hwarn. exists "vfoo".
    repeat split; try reflexivity. simpl. tauto.
  - apply Htags. simpl. tauto.
Defined.

(** The set 1.0.0, 1.1.0, 2.0.0 filtered by major 1 and minor 1. *)
Lemma C7_filter_1_1 :
  let versions :=
    [mkVersion 1 0 0 None None; mkVersion 1 1 0 None None;
     mkVersion 2 0 0 None None] in
  filter_versions versions None (Some 1%Z) = versions
  /\ In (mkVersion 1 1 0 None None)
        (filter_versions versions (Some 1%Z) (Some 1%Z))
  /\ ~ In (mkVersion 1 0 0 None None)
          (filter_versions versions (Some 1%Z) (Some 1%Z)).
Proof.
  cbv zeta.
  assert (Hset : Spec.is_set
                   [mkVersion 1 0 0 None None; mkVersion 1 1 0 None None;
                    mkVersion 2 0 0 None None]).
  { unfold Spec.is_set. simpl.
    repeat constructor; simpl; intuition discriminate. }
  destruct (C7_filter_versions_exact _ Hset) as [Hnone Hsome].
  repeat apply conj.
  - apply Hnone.
  - apply Hsome. simpl. repeat split; try tauto. now intros m [= <-].
  - intros Hin. apply Hsome in Hin. destruct Hin as [_ [_ Hminor]].
    specialize (Hminor 1%Z eq_refl). discriminate Hminor.
Defined.

(** The names of the version selected after 1.0.0, under the prefix
    [release-] and the suffix [-final]. *)
Lemma C8_names_of_1_0_1 :
  let versions := [mkVersion 1 0 0 None None] in
  let v := mkVersion 1 0 1 None None in
  generate_version_name v "release-" "-final" true (Some "SNAPSHOT")
  = "release-1.0-SNAPSHOT-final"
  /\ generate_version_name v "release-" "-final" false (Some "SNAPSHOT")
     = "release-1.0.1-final".
Proof.
  cbv zeta.
  destruct (C8_rendered_name [mkVersion 1 0 0 None None]
              [mkVersion 1 0 0 None None] None None
              (mkVersion 1 0 1 None None) "release-" "-final" eq_refl)
    as [Hsnap [_ [_ Hplain]]].
  split; [rewrite Hsnap | rewrite Hplain]; reflexivity.
Defined.

(** The dry run of a repository that already has the snapshot tag. *)
Lemma C10_dry_run_on_existing_name :
  let repo := mkRepo [TagReference "v1.0-SNAPSHOT"; TagReference "v1.0.1"]
                     ["origin"] in
  let run := calculate_new_version repo "v" "" None None
               true true true false in
  result run = Ret tt
  /\ exit_status run = 0%Z
  /\ stdout (trace run) = ["v1.0-SNAPSHOT"]
  /\ created_tags (trace run) = []
  /\ pushes (trace run) = [].
Proof.
  cbv zeta.
  apply (C10_dry_run_never_collides
           (mkRepo [TagReference "v1.0-SNAPSHOT"; TagReference "v1.0.1"]
                   ["origin"])
           "v" "" None None true true false "v1.0-SNAPSHOT").
  reflexivity.
Defined.

End Instances.

(* ===================================================================== *)
(** ** Further properties of the command *)
(* ===================================================================== *)

Section RunProperties.
Import Semver(Version, mkVersion).
Import Proc Main.

Lemma log_lines_app threshold t u :
  log_lines threshold (t ++ u) = log_lines threshold t ++ log_lines threshold u.
Proof. apply flat_map_app. Qed.

Lemma remote_reads_app t u :
  Spec.remote_reads (t ++ u) = Spec.remote_reads t ++ Spec.remote_reads u.
Proof. apply filter_app. Qed.

Lemma only_logs_no_remote_reads t :
  Spec.only_logs t -> Spec.remote_reads t = [].
Proof.
  induction 1 as [| e t He _ IH]; [reflexivity |].
  destruct e; try contradiction. exact IH.
Qed.

(** What the three phases before the creation of the tag log is below
    the level [ERROR]. *)
Lemma scan_log_below_error version_prefix version_suffix refs :
  log_lines ERROR
    (flat_map (Spec.scan_log version_prefix version_suffix) refs) = [].
Proof.
  induction refs as [| ref refs IH]; [reflexivity |].
  simpl. rewrite log_lines_app, IH, app_nil_r.
  destruct ref as [name | name | name]; try reflexivity.
  simpl. destruct (Spec.matches_pattern _ _ _); [| reflexivity].
  destruct (Semver.parse _); reflexivity.
Qed.

Lemma remote_log_below_error (f : string -> list event) l :
  (forall r, log_lines ERROR (f r) = []) ->
  log_lines ERROR (flat_map f l) = [].
Proof.
  intros Hf. induction l as [| r l IH]; [reflexivity |].
  simpl. now rewrite log_lines_app, Hf, IH.
Qed.

Lemma before_tag_below_error repo version_prefix version_suffix
    fmajor fminor pull_before :
  let versions := version_set repo version_prefix version_suffix in
  log_lines ERROR
    (trace (Spec.pull_part repo pull_before)
     ++ trace (find_previous_versions repo version_prefix version_suffix)
     ++ trace (increased_version versions
                 (filter_versions versions fmajor fminor) fmajor fminor))
  = [].
Proof.
  cbv zeta. rewrite !log_lines_app.
  assert (H1 : log_lines ERROR (trace (Spec.pull_part repo pull_before)) = []).
  { unfold Spec.pull_part. destruct pull_before; [| reflexivity].
    rewrite fetch_and_pull_remotes_view. cbn [trace fst].
    now apply remote_log_below_error. }
  assert (H2 : log_lines ERROR
                 (trace (find_previous_versions repo version_prefix
                           version_suffix)) = []).
  { rewrite find_previous_versions_view. apply scan_log_below_error. }
  rewrite H1, H2. cbn [app].
  unfold increased_version.
  destruct (List.length _ =? 0)%nat; [reflexivity |].
  destruct (List.length _ =? 0)%nat.
  - destruct fmajor; [| reflexivity].
    destruct (Semver.Version_init _ _ _); reflexivity.
  - destruct (PySet.max Semver.gt _); reflexivity.
Qed.

Lemma push_trace_facts repo name :
  created_tags (trace (push_new_tags_to_remotes repo name)) = []
  /\ pushes (trace (push_new_tags_to_remotes repo name))
     = map (fun remote => (remote, name)) (remotes repo)
  /\ stdout (trace (push_new_tags_to_remotes repo name)) = []
  /\ log_lines ERROR (trace (push_new_tags_to_remotes repo name)) = []
  /\ Spec.remote_reads (trace (push_new_tags_to_remotes repo name)) = [].
Proof.
  rewrite push_new_tags_to_remotes_view. cbn [trace fst].
  induction (remotes repo) as [| r l IH]; [now repeat split |].
  destruct IH as [H1 [H2 [H3 [H4 H5]]]].
  cbn [flat_map map]. unfold created_tags, pushes, stdout, log_lines in *.
  rewrite !flat_map_app.
  unfold Spec.remote_reads in *. rewrite filter_app.
  rewrite H1, H2, H3, H4, H5. now repeat split.
Qed.

(** Initial segments of a trace. *)
Lemma initial_segment_refl {A} (t : list A) : Spec.initial_segment t t.
Proof. exists []. now rewrite app_nil_r. Qed.

Lemma initial_segment_of_nil {A} (t : list A) :
  Spec.initial_segment t [] -> t = [].
Proof. intros [rest H]. symmetry in H. now apply app_eq_nil in H. Qed.

Lemma initial_segment_app {A} (t p q : list A) :
  Spec.initial_segment t (p ++ q) ->
  Spec.initial_segment t p
  \/ exists b, t = p ++ b /\ Spec.initial_segment b q.
Proof.
  intros [rest H]. apply app_eq_app in H.
  destruct H as [l [[-> ->] | [-> ->]]].
  - left. now exists l.
  - right. exists l. split; [reflexivity | now exists rest].
Qed.

Lemma initial_segment_cons {A} (t p : list A) x q :
  Spec.initial_segment t (p ++ x :: q) ->
  Spec.initial_segment t p
  \/ exists c, t = p ++ x :: c /\ Spec.initial_segment c q.
Proof.
  intros H. apply initial_segment_app in H.
  destruct H as [H | [b [-> [rest H]]]]; [now left |].
  destruct b as [| y b].
  - left. rewrite app_nil_r. apply initial_segment_refl.
  - cbn in H. injection H as <- H. right. exists b.
    split; [reflexivity | now exists rest].
Qed.

Lemma initial_segment_one {A} (x : A) t :
  Spec.initial_segment t [x] -> t = [] \/ t = [x].
Proof.
  intros [rest H]. destruct t as [| y t]; [now left |]. right.
  cbn in H. injection H as <- H. symmetry in H.
  apply app_eq_nil in H. now destruct H as [-> _].
Qed.

Lemma initial_segment_flat_map {A B} (f : A -> list B) t u :
  Spec.initial_segment t u ->
  Spec.initial_segment (flat_map f t) (flat_map f u).
Proof. intros [rest ->]. exists (flat_map f rest). apply flat_map_app. Qed.

Lemma initial_segment_filter {A} (f : A -> bool) t u :
  Spec.initial_segment t u ->
  Spec.initial_segment (filter f t) (filter f u).
Proof. intros [rest ->]. exists (filter f rest). apply filter_app. Qed.

Lemma initial_segment_created_tags t u :
  Spec.initial_segment t u ->
  Spec.initial_segment (created_tags t) (created_tags u).
Proof. apply initial_segment_flat_map. Qed.

Lemma initial_segment_pushes t u :
  Spec.initial_segment t u -> Spec.initial_segment (pushes t) (pushes u).
Proof. apply initial_segment_flat_map. Qed.

Lemma initial_segment_stdout t u :
  Spec.initial_segment t u -> Spec.initial_segment (stdout t) (stdout u).
Proof. apply initial_segment_flat_map. Qed.

Lemma initial_segment_remote_reads t u :
  Spec.initial_segment t u ->
  Spec.initial_segment (Spec.remote_reads t) (Spec.remote_reads u).
Proof. apply initial_segment_filter. Qed.

(** What comes before the last event, when something is still to come. *)
Lemma before_the_last {A} (t rest pre : list A) x :
  pre ++ [x] = t ++ rest -> rest <> [] -> Spec.initial_segment t pre.
Proof.
  intros H Hrest. destruct (exists_last Hrest) as [r [y ->]].
  rewrite app_assoc in H. apply app_inj_tail in H.
  destruct H as [-> _]. now exists r.
Qed.

(** The fetches and pulls of a run in which every git operation returns:
    those of lines 78 and 79, and none after them. *)
Lemma remote_reads_of_run repo version_prefix version_suffix
    fmajor fminor create_no_git_tag pull_before create_snapshot_version
    verbose :
  let run :=
    calculate_new_version repo version_prefix version_suffix fmajor fminor
      create_no_git_tag pull_before create_snapshot_version verbose in
  let reads :=
    if pull_before
    then flat_map (fun remote => [Fetch remote; Pull remote]) (remotes repo)
    else [] in
  Spec.remote_reads (trace run) = reads
  /\ exists rest,
       trace run = trace (Spec.pull_part repo pull_before) ++ rest
       /\ Spec.remote_reads (trace (Spec.pull_part repo pull_before)) = reads
       /\ Spec.remote_reads rest = [].
Proof.
  cbv zeta.
  assert (Hpull : Spec.remote_reads (trace (Spec.pull_part repo pull_before))
                  = if pull_before
                    then flat_map (fun remote => [Fetch remote; Pull remote])
                                  (remotes repo)
                    else []).
  { unfold Spec.pull_part. destruct pull_before; [| reflexivity].
    rewrite fetch_and_pull_remotes_view. cbn [trace fst].
    induction (remotes repo) as [| r l IH]; [reflexivity |].
    cbn [flat_map]. rewrite remote_reads_app, IH. reflexivity. }
  assert (Hscan : Spec.remote_reads
                    (trace (find_previous_versions repo version_prefix
                              version_suffix)) = []).
  { apply only_logs_no_remote_reads, find_previous_versions_run. }
  assert (Hsel : Spec.remote_reads
                   (trace (increased_version
                             (version_set repo version_prefix version_suffix)
                             (filter_versions
                                (version_set repo version_prefix
                                   version_suffix) fmajor fminor)
                             fmajor fminor)) = []).
  { apply only_logs_no_remote_reads, increased_version_only_logs. }
  rewrite calculate_new_version_view. cbv zeta.
  destruct (result (increased_version _ _ fmajor fminor)) as [v | c | e].
  - destruct create_no_git_tag;
      [| destruct (PySet.contains String.eqb _ _)];
      cbn [trace fst]; rewrite <- !app_assoc.
    + split.
      * rewrite !remote_reads_app, Hpull, Hscan, Hsel. now rewrite app_nil_r.
      * eexists. split; [reflexivity |]. split; [exact Hpull |].
        rewrite !remote_reads_app, Hscan, Hsel. reflexivity.
    + split.
      * rewrite !remote_reads_app, Hpull, Hscan, Hsel. now rewrite app_nil_r.
      * eexists. split; [reflexivity |]. split; [exact Hpull |].
        rewrite !remote_reads_app, Hscan, Hsel. reflexivity.
    + destruct (push_trace_facts repo
                  (generate_version_name v version_prefix version_suffix
                     create_snapshot_version (Some "SNAPSHOT"%string)))
        as [_ [_ [_ [_ Hpush]]]].
      split.
      * rewrite !remote_reads_app, Hpull, Hscan, Hsel. cbn [app].
        change (CreateTag ?n :: ?l) with ([CreateTag n] ++ l).
        rewrite !remote_reads_app, Hpush. now rewrite app_nil_r.
      * eexists. split; [reflexivity |]. split; [exact Hpull |].
        rewrite !remote_reads_app, Hscan, Hsel. cbn [app].
        change (CreateTag ?n :: ?l) with ([CreateTag n] ++ l).
        rewrite !remote_reads_app, Hpush. reflexivity.
  - cbn [trace fst]. split.
    + rewrite !remote_reads_app, Hpull, Hscan, Hsel. now rewrite app_nil_r.
    + eexists. split; [reflexivity |]. split; [exact Hpull |].
      rewrite !remote_reads_app, Hscan, Hsel. reflexivity.
  - cbn [trace fst]. split.
    + rewrite !remote_reads_app, Hpull, Hscan, Hsel. now rewrite app_nil_r.
    + eexists. split; [reflexivity |]. split; [exact Hpull |].
      rewrite !remote_reads_app, Hscan, Hsel. reflexivity.
Qed.

(** X1 — Reading the remotes.  A git operation that raises ends the run,
    so take any initial segment of the run.  It is made of an initial
    segment of lines 78 and 79 followed by events that neither fetch nor
    pull, and these only start once lines 78 and 79 are complete.  The
    remotes it reads are an initial segment of: each remote fetched and
    then pulled, in the order of the remotes, with [pull_before]; nothing,
    without it. *)
Theorem X1_remote_reads_come_first repo version_prefix version_suffix
    fmajor fminor create_no_git_tag pull_before create_snapshot_version
    verbose t :
  Spec.initial_segment t
    (trace (calculate_new_version repo version_prefix version_suffix
              fmajor fminor create_no_git_tag pull_before
              create_snapshot_version verbose)) ->
  let pull := trace (Spec.pull_part repo pull_before) in
  let reads :=
    if pull_before
    then flat_map (fun remote => [Fetch remote; Pull remote]) (remotes repo)
    else [] in
  Spec.remote_reads pull = reads
  /\ Spec.initial_segment (Spec.remote_reads t) reads
  /\ exists a b,
       t = a ++ b
       /\ Spec.initial_segment a pull
       /\ Spec.remote_reads b = []
       /\ (b <> [] -> a = pull).
Proof.
  intros Ht pull reads. subst pull reads.
  destruct (remote_reads_of_run repo version_prefix version_suffix fmajor
              fminor create_no_git_tag pull_before create_snapshot_version
              verbose) as [Hall [rest [Hrun [Hpull Hrest]]]].
  split; [exact Hpull |]. split.
  - rewrite <- Hall. now apply initial_segment_remote_reads.
  - rewrite Hrun in Ht. apply initial_segment_app in Ht.
    destruct Ht as [Ht | [b [-> Hb]]].
    + exists t, []. rewrite app_nil_r.
      repeat apply conj; [reflexivity | exact Ht | reflexivity |].
      intros H. now contradiction H.
    + exists (trace (Spec.pull_part repo pull_before)), b.
      repeat apply conj;
        [reflexivity | apply initial_segment_refl | | reflexivity].
      apply initial_segment_remote_reads in Hb.
      rewrite Hrest in Hb. now apply initial_segment_of_nil in Hb.
Qed.

Lemma increased_version_never_exits versions filtered fmajor fminor c :
  result (increased_version versions filtered fmajor fminor) <> Exit c.
Proof.
  unfold increased_version.
  destruct (List.length versions =? 0)%nat; [discriminate |].
  destruct (List.length filtered =? 0)%nat.
  - destruct fmajor; [| discriminate].
    destruct (Semver.Version_init _ _ _); discriminate.
  - destruct (PySet.max Semver.gt filtered); discriminate.
Qed.

(** Everything a run lets the outside world see, by the way it goes: no
    name computed, dry run, collision, creation. *)
Lemma run_observables repo version_prefix version_suffix fmajor fminor
    create_no_git_tag pull_before create_snapshot_version verbose :
  let run :=
    calculate_new_version repo version_prefix version_suffix fmajor fminor
      create_no_git_tag pull_before create_snapshot_version verbose in
  let t := trace run in
  match next_tag_name repo version_prefix version_suffix fmajor fminor
          create_snapshot_version with
  | None =>
      (exists e, result run = Raise e)
      /\ stdout t = [] /\ created_tags t = [] /\ pushes t = []
      /\ log_lines ERROR t = []
  | Some name =>
      if create_no_git_tag then
        result run = Ret tt
        /\ stdout t = [name] /\ created_tags t = [] /\ pushes t = []
        /\ log_lines ERROR t = []
      else if PySet.contains String.eqb
                (tag_set repo version_prefix version_suffix) name then
        result run = Exit 1
        /\ stdout t = [] /\ created_tags t = [] /\ pushes t = []
        /\ log_lines ERROR t
           = [("ERROR: " ++ Spec.collision_error name)%string]
      else
        result run = Ret tt
        /\ stdout t = [name] /\ created_tags t = [name]
        /\ pushes t = map (fun remote => (remote, name)) (remotes repo)
        /\ log_lines ERROR t = []
  end.
Proof.
  cbv zeta.
  pose proof (before_tag_quiet repo version_prefix version_suffix
                fmajor fminor pull_before) as [Hc [Hp Ho]].
  pose proof (before_tag_below_error repo version_prefix version_suffix
                fmajor fminor pull_before) as Hl.
  cbv zeta in Hc, Hp, Ho, Hl.
  rewrite calculate_new_version_view. cbv zeta.
  unfold next_tag_name, next_version.
  destruct (result (increased_version _ _ fmajor fminor)) as [v | c | e] eqn:E.
  - destruct create_no_git_tag;
      [| destruct (PySet.contains String.eqb _ _)];
      cbn [trace fst result snd] in *.
    + rewrite created_tags_app, pushes_app, stdout_app, log_lines_app,
        Hc, Hp, Ho, Hl. now repeat split.
    + rewrite created_tags_app, pushes_app, stdout_app, log_lines_app,
        Hc, Hp, Ho, Hl. now repeat split.
    + destruct (push_trace_facts repo
                  (generate_version_name v version_prefix version_suffix
                     create_snapshot_version (Some "SNAPSHOT"%string)))
        as [Hpc [Hpp [Hpo [Hpl _]]]].
      change (CreateTag ?n :: ?l) with ([CreateTag n] ++ l).
      rewrite created_tags_app, pushes_app, stdout_app, log_lines_app,
        Hc, Hp, Ho, Hl.
      rewrite !created_tags_app, !pushes_app, !stdout_app, !log_lines_app,
        Hpc, Hpp, Hpo, Hpl.
      cbn. rewrite app_nil_r. now repeat split.
  - now apply increased_version_never_exits in E.
  - cbn [trace fst result snd] in *. rewrite Hc, Hp, Ho, Hl.
    repeat split. now exists e.
Qed.

Lemma app_cons_last {A} (p : list A) x q y :
  p ++ x :: q ++ [y] = (p ++ x :: q) ++ [y].
Proof. now rewrite <- app_assoc. Qed.

(** The name is printed by the last event of a run, if at all. *)
Lemma run_prints_last repo version_prefix version_suffix fmajor fminor
    create_no_git_tag pull_before create_snapshot_version verbose :
  let run :=
    calculate_new_version repo version_prefix version_suffix fmajor fminor
      create_no_git_tag pull_before create_snapshot_version verbose in
  stdout (trace run) = []
  \/ exists pre name,
       trace run = pre ++ [Print name] /\ stdout pre = [].
Proof.
  cbv zeta.
  pose proof (before_tag_quiet repo version_prefix version_suffix
                fmajor fminor pull_before) as [Hc [Hp Ho]].
  cbv zeta in Hc, Hp, Ho.
  rewrite calculate_new_version_view. cbv zeta.
  destruct (result (increased_version _ _ fmajor fminor)) as [v | c | e].
  - destruct create_no_git_tag;
      [| destruct (PySet.contains String.eqb _ _)]; cbn [trace fst].
    + right. eexists _, _. split; [reflexivity | exact Ho].
    + left. rewrite stdout_app, Ho. reflexivity.
    + right.
      destruct (push_trace_facts repo
                  (generate_version_name v version_prefix version_suffix
                     create_snapshot_version (Some "SNAPSHOT"%string)))
        as [_ [_ [Hpo _]]].
      rewrite app_cons_last. eexists _, _. split; [reflexivity |].
      change (CreateTag ?n :: ?l) with ([CreateTag n] ++ l).
      rewrite stdout_app, Ho, stdout_app, Hpo. reflexivity.
  - left. exact Ho.
  - left. exact Ho.
Qed.

(** X2 — Creation.  Without the dry-run flag, when the computed name is
    not a tag of the repository: as far as the run gets (a git operation
    that raises ends it), no tag but the computed name is created, and it
    is created once at most; the pushes are pushes of that tag to the
    remotes, in the order of the remotes, and only start after the
    creation; and the name is printed only by the last step, after the
    creation and the push to every remote, and the run then ends with
    status 0. *)
Theorem X2_tag_then_pushes_then_print repo version_prefix version_suffix
    fmajor fminor pull_before create_snapshot_version verbose name t :
  next_tag_name repo version_prefix version_suffix fmajor fminor
                create_snapshot_version = Some name ->
  ~ In (TagReference name) (references repo) ->
  Spec.initial_segment t
    (trace (calculate_new_version repo version_prefix version_suffix
              fmajor fminor false pull_before create_snapshot_version
              verbose)) ->
  let run :=
    calculate_new_version repo version_prefix version_suffix fmajor fminor
      false pull_before create_snapshot_version verbose in
  let all_pushes := map (fun remote => (remote, name)) (remotes repo) in
  (created_tags t = [] \/ created_tags t = [name])
  /\ Spec.initial_segment (pushes t) all_pushes
  /\ (pushes t <> [] -> created_tags t = [name])
  /\ (stdout t = []
      \/ (stdout t = [name]
          /\ created_tags t = [name]
          /\ pushes t = all_pushes
          /\ t = trace run
          /\ result run = Ret tt
          /\ exit_status run = 0%Z)).
Proof.
  intros Hname Hnew Ht run all_pushes. subst run all_pushes.
  pose proof (run_observables repo version_prefix version_suffix fmajor
                fminor false pull_before create_snapshot_version verbose)
    as Hobs.
  cbv zeta in Hobs. rewrite Hname in Hobs.
  assert (Hc : PySet.contains String.eqb
                 (tag_set repo version_prefix version_suffix) name = false).
  { destruct (PySet.contains String.eqb _ name) eqn:E; [| reflexivity].
    apply contains_string, tag_set_In in E. contradiction. }
  rewrite Hc in Hobs. destruct Hobs as [Hr [Ho [Hct [Hp _]]]].
  assert (Hcreated : created_tags t = [] \/ created_tags t = [name]).
  { apply initial_segment_one. rewrite <- Hct.
    now apply initial_segment_created_tags. }
  pose proof (before_tag_quiet repo version_prefix version_suffix
                fmajor fminor pull_before) as [Hbc [Hbp Hbo]].
  cbv zeta in Hbc, Hbp, Hbo.
  assert (Hview := calculate_new_version_view repo version_prefix
                     version_suffix fmajor fminor false pull_before
                     create_snapshot_version verbose).
  cbv zeta in Hview.
  apply next_tag_name_Some in Hname. cbv zeta in Hname.
  destruct Hname as [v [Hv Hn]]. rewrite Hv, <- Hn, Hc in Hview.
  repeat apply conj.
  - exact Hcreated.
  - rewrite <- Hp. now apply initial_segment_pushes.
  - intros Hpushed. rewrite Hview in Ht. cbn [trace fst] in Ht.
    apply initial_segment_cons in Ht. destruct Ht as [Ht | [c [-> _]]].
    + apply initial_segment_pushes in Ht. rewrite Hbp in Ht.
      apply initial_segment_of_nil in Ht. contradiction.
    + rewrite created_tags_app, Hbc in Hcreated |- *. cbn in Hcreated |- *.
      destruct Hcreated as [H | H]; [discriminate H | exact H].
  - destruct (run_prints_last repo version_prefix version_suffix fmajor
                fminor false pull_before create_snapshot_version verbose)
      as [Hnone | [pre [name' [Hrun Hpre]]]]; cbv zeta in *.
    + rewrite Hnone in Ho. discriminate Ho.
    + assert (Hlast := Ht). rewrite Hrun in Hlast.
      apply initial_segment_cons in Hlast.
      destruct Hlast as [Hlast | [c [Hlast Hc']]].
      * left.
        apply initial_segment_stdout in Hlast. rewrite Hpre in Hlast.
        now apply initial_segment_of_nil in Hlast.
      * right. apply initial_segment_of_nil in Hc'. subst c.
        rewrite <- Hrun in Hlast. subst t.
        unfold exit_status. rewrite Hr.
        repeat apply conj; try assumption; reflexivity.
Qed.

(** X3 — No tag is overwritten.  In every run, a tag that is created is
    the computed name, is the only one created, was not a tag of the
    repository, and the run is not a dry run; and whatever is pushed is
    that tag, to a remote of the repository. *)
Theorem X3_only_a_new_tag_is_created repo version_prefix version_suffix
    fmajor fminor create_no_git_tag pull_before create_snapshot_version
    verbose :
  let run :=
    calculate_new_version repo version_prefix version_suffix fmajor fminor
      create_no_git_tag pull_before create_snapshot_version verbose in
  (forall name,
     In name (created_tags (trace run)) ->
     created_tags (trace run) = [name]
     /\ create_no_git_tag = false
     /\ next_tag_name repo version_prefix version_suffix fmajor fminor
                      create_snapshot_version = Some name
     /\ ~ In (TagReference name) (references repo))
  /\ (forall remote name,
        In (remote, name) (pushes (trace run)) ->
        In name (created_tags (trace run)) /\ In remote (remotes repo)).
Proof.
  cbv zeta.
  pose proof (run_observables repo version_prefix version_suffix fmajor
                fminor create_no_git_tag pull_before create_snapshot_version
                verbose) as Hobs.
  cbv zeta in Hobs.
  destruct (next_tag_name _ _ _ _ _ _) as [n |];
    [destruct create_no_git_tag;
     [| destruct (PySet.contains String.eqb _ n) eqn:Hc] |];
    destruct Hobs as [_ [_ [Hct [Hp _]]]]; rewrite Hct, Hp;
    (split; [intros name Hin | intros remote name Hin]);
    try now destruct Hin.
  - destruct Hin as [<- | []]. repeat split.
    intros Hin. apply tag_set_In with (version_prefix := version_prefix)
                  (version_suffix := version_suffix) in Hin.
    apply contains_string in Hin. congruence.
  - apply in_map_iff in Hin. destruct Hin as [r [[= <- <-] Hr]].
    split; [now left | exact Hr].
Qed.

(** X4 — Printing comes last.  Every run either ends with status 0 and
    has printed the computed name and nothing else, or ends with status 1
    and has printed nothing.  The name is printed by the last step: as
    long as something is still to come, nothing has been printed, so a
    run that is cut short prints nothing. *)
Theorem X4_name_is_printed_last repo version_prefix version_suffix
    fmajor fminor create_no_git_tag pull_before create_snapshot_version
    verbose :
  let run :=
    calculate_new_version repo version_prefix version_suffix fmajor fminor
      create_no_git_tag pull_before create_snapshot_version verbose in
  ((exists name,
      next_tag_name repo version_prefix version_suffix fmajor fminor
                    create_snapshot_version = Some name
      /\ result run = Ret tt /\ exit_status run = 0%Z
      /\ stdout (trace run) = [name])
   \/ (exit_status run = 1%Z /\ stdout (trace run) = []))
  /\ (forall t rest,
        trace run = t ++ rest -> rest <> [] -> stdout t = []).
Proof.
  cbv zeta. split.
  - pose proof (run_observables repo version_prefix version_suffix fmajor
                  fminor create_no_git_tag pull_before
                  create_snapshot_version verbose) as Hobs.
    cbv zeta in Hobs. unfold exit_status.
    destruct (next_tag_name _ _ _ _ _ _) as [n |];
      [destruct create_no_git_tag;
       [| destruct (PySet.contains String.eqb _ n)] |].
    + destruct Hobs as [Hr [Ho _]]. left. exists n. now rewrite Hr.
    + destruct Hobs as [Hr [Ho _]]. right. now rewrite Hr.
    + destruct Hobs as [Hr [Ho _]]. left. exists n. now rewrite Hr.
    + destruct Hobs as [[e Hr] [Ho _]]. right. now rewrite Hr.
  - intros t rest Hrun Hrest.
    destruct (run_prints_last repo version_prefix version_suffix fmajor
                fminor create_no_git_tag pull_before create_snapshot_version
                verbose) as [Hnone | [pre [name [Hlast Hpre]]]];
      cbv zeta in *.
    + rewrite Hrun, stdout_app in Hnone.
      now apply app_eq_nil in Hnone.
    + rewrite Hlast in Hrun. apply before_the_last in Hrun; [| exact Hrest].
      apply initial_segment_stdout in Hrun. rewrite Hpre in Hrun.
      now apply initial_segment_of_nil in Hrun.
Qed.

(** X5 — A negative filter that matches no version aborts the command:
    when the version set is not empty, the filtered set is, and the
    requested major or minor is negative, the run ends with an uncaught
    [ValueError] (status 1), prints nothing and creates nothing, whatever
    the other options. *)
Theorem X5_negative_filter_aborts repo version_prefix version_suffix
    M fminor create_no_git_tag pull_before create_snapshot_version verbose :
  version_set repo version_prefix version_suffix <> [] ->
  filter_versions (version_set repo version_prefix version_suffix)
                  (Some M) fminor = [] ->
  (M < 0 \/ Spec.minor_or_0 fminor < 0)%Z ->
  let run :=
    calculate_new_version repo version_prefix version_suffix (Some M) fminor
      create_no_git_tag pull_before create_snapshot_version verbose in
  result run = Raise ValueError
  /\ exit_status run = 1%Z
  /\ stdout (trace run) = []
  /\ created_tags (trace run) = []
  /\ pushes (trace run) = [].
Proof.
  intros Hv Hf Hneg run. subst run.
  pose proof (negative_filter_raises _ _ _ Hv Hf Hneg) as Hraise.
  pose proof (run_observables repo version_prefix version_suffix (Some M)
                fminor create_no_git_tag pull_before create_snapshot_version
                verbose) as Hobs.
  cbv zeta in Hobs. unfold next_tag_name, next_version in Hobs.
  rewrite Hraise in Hobs. cbn [result snd] in Hobs.
  destruct Hobs as [_ [Ho [Hct [Hp _]]]].
  assert (Hr : result
                 (calculate_new_version repo version_prefix version_suffix
                    (Some M) fminor create_no_git_tag pull_before
                    create_snapshot_version verbose) = Raise ValueError).
  { rewrite calculate_new_version_view. cbv zeta. now rewrite Hraise. }
  unfold exit_status. rewrite Hr. now repeat split.
Qed.

(** X6 — Silence without [--verbose].  The logger then passes errors
    only: it writes nothing to standard error, except for the one line of
    a collision, which names the computed name, in a run that is not a
    dry run, stops with status 1, and whose computed name is a tag of the
    repository.  (The traceback of an uncaught exception is the
    interpreter's, not the logger's.) *)
Theorem X6_stderr_without_verbose repo version_prefix version_suffix
    fmajor fminor create_no_git_tag pull_before create_snapshot_version :
  let run :=
    calculate_new_version repo version_prefix version_suffix fmajor fminor
      create_no_git_tag pull_before create_snapshot_version false in
  stderr false (trace run) = []
  \/ exists name,
       stderr false (trace run)
       = [("ERROR: " ++ Spec.collision_error name)%string]
       /\ create_no_git_tag = false
       /\ result run = Exit 1
       /\ In (TagReference name) (references repo)
       /\ next_tag_name repo version_prefix version_suffix fmajor fminor
                        create_snapshot_version = Some name.
Proof.
  cbv zeta. unfold stderr.
  pose proof (run_observables repo version_prefix version_suffix fmajor
                fminor create_no_git_tag pull_before create_snapshot_version
                false) as Hobs.
  cbv zeta in Hobs.
  destruct (next_tag_name _ _ _ _ _ _) as [n |];
    [destruct create_no_git_tag;
     [| destruct (PySet.contains String.eqb _ n) eqn:Hc] |];
    try (left; apply Hobs).
  right. exists n. destruct Hobs as [Hr [_ [_ [_ Hl]]]].
  repeat apply conj; try assumption; try reflexivity.
  now apply contains_string, tag_set_In in Hc.
Qed.

End RunProperties.

(* ===================================================================== *)
(** ** Further properties of the rendering *)
(* ===================================================================== *)

Section NameProperties.
Import Semver(Version, mkVersion, major, minor, patch, prerelease, build).
Import PyStr Main.
#[local] Open Scope string_scope.

Lemma lstrip_empty s : lstrip s = "" <-> forallb_str is_space s = true.
Proof.
  induction s as [| c s IH]; simpl; [tauto |].
  destruct (is_space c); simpl; [exact IH | split; discriminate].
Qed.

Lemma lstrip_head s : lstrip s = "" \/ exists c r, lstrip s = String c r
                                                   /\ is_space c = false.
Proof.
  induction s as [| c s IH]; simpl; [now left |].
  destruct (is_space c) eqn:E; [exact IH |].
  right. now exists c, s.
Qed.

Lemma string_rev_empty s : string_rev s = "" -> s = "".
Proof.
  destruct s as [| c s]; [reflexivity |]. simpl.
  destruct (string_rev s); discriminate.
Qed.

Lemma string_rev_all p s :
  forallb_str p (string_rev s) = forallb_str p s.
Proof.
  induction s as [| c s IH]; [reflexivity |].
  simpl. rewrite forallb_str_app, IH. simpl.
  now rewrite andb_true_r, andb_comm.
Qed.

(** [s.strip()] is empty exactly when [s] is made of white space. *)
Lemma strip_empty s : strip s = "" <-> forallb_str is_space s = true.
Proof.
  unfold strip. split.
  - intros H. apply string_rev_empty, lstrip_empty in H.
    rewrite string_rev_all in H.
    destruct (lstrip_head s) as [E | [c [r [E Hc]]]].
    + now apply lstrip_empty.
    + rewrite E in H. simpl in H. rewrite Hc in H. discriminate H.
  - intros H. apply lstrip_empty in H. now rewrite H.
Qed.

(** X7 — The snapshot form of a name is chosen exactly when the override
    flag is set and the marker passed as [patch_version] holds a character
    that is not white space; with no marker, an empty one or a blank one
    the name is the plain [prefix ++ str(version) ++ suffix] even under
    the flag. *)
Theorem X7_snapshot_needs_flag_and_marker v
    (version_prefix version_suffix : string) override_patch_version
    patch_version :
  generate_version_name v version_prefix version_suffix
    override_patch_version patch_version
  = if override_patch_version
       && match patch_version with
          | Some p => negb (forallb_str is_space p)
          | None => false
          end
    then version_prefix ++ str_of_int (major v) ++ "."
         ++ str_of_int (minor v) ++ "-SNAPSHOT" ++ version_suffix
    else version_prefix ++ Semver.to_str v ++ version_suffix.
Proof.
  unfold generate_version_name.
  destruct patch_version as [p |]; [| reflexivity].
  assert (E : String.eqb (strip p) "" = forallb_str is_space p).
  { destruct (forallb_str is_space p) eqn:Hp.
    - apply strip_empty in Hp. now rewrite Hp.
    - apply String.eqb_neq. intros Hs. apply strip_empty in Hs. congruence. }
  now rewrite E.
Qed.

Lemma prefix_app (p t : string) : String.prefix p (p ++ t) = true.
Proof.
  induction p as [| a p IH]; simpl; [now destruct t |].
  destruct (ascii_dec a a) as [_ | Hne]; [exact IH | now destruct Hne].
Qed.

Lemma prefix_sound (p : string) : forall t,
  String.prefix p t = true -> exists r, t = p ++ r.
Proof.
  induction p as [| a p IH]; intros t H; [now exists t |].
  destruct t as [| b t]; [discriminate H |].
  simpl in H. destruct (ascii_dec a b) as [<- | _]; [| discriminate H].
  destruct (IH t H) as [r ->]. now exists r.
Qed.

Lemma has_char_app c (a b : string) :
  Spec.has_char c (a ++ b) = Spec.has_char c a || Spec.has_char c b.
Proof.
  induction a as [| x a IH]; simpl; [reflexivity |].
  now rewrite IH, orb_assoc.
Qed.

Lemma has_char_outside q c t :
  forallb_str q t = true -> q c = false -> Spec.has_char c t = false.
Proof.
  intros Ht Hc. induction t as [| x t IH]; [reflexivity |].
  simpl in *. apply andb_true_iff in Ht as [Hx Ht].
  rewrite (IH Ht), orb_false_r.
  destruct (Ascii.eqb_spec x c) as [-> |]; [congruence | reflexivity].
Qed.

(** A pattern with a character that the text lacks is not found in it,
    and [replace] leaves the text as it is. *)
Lemma replace_scan_no_occurrence c (old : string) : forall t,
  Spec.has_char c old = true -> Spec.has_char c t = false ->
  replace_scan 0 t old "" = t.
Proof.
  intros t Hold. induction t as [| x t IH]; intros Ht; [reflexivity |].
  cbn [replace_scan].
  destruct (startswith (String x t) old) eqn:E.
  - apply prefix_sound in E. destruct E as [r E].
    rewrite E, has_char_app, Hold in Ht. discriminate Ht.
  - simpl in Ht. apply orb_false_iff in Ht as [_ Ht]. now rewrite (IH Ht).
Qed.

Lemma replace_scan_skip (a : string) : forall t old new,
  replace_scan (String.length a) (a ++ t) old new = replace_scan 0 t old new.
Proof.
  induction a as [| x a IH]; intros t old new; [reflexivity |].
  simpl. apply IH.
Qed.

(** The pattern at the head of the text is replaced, and the scan goes on
    behind it. *)
Lemma replace_scan_head (old t new : string) :
  old <> "" ->
  replace_scan 0 (old ++ t) old new = new ++ replace_scan 0 t old new.
Proof.
  destruct old as [| a old]; [congruence | intros _].
  change (String a old ++ t) with (String a (old ++ t)).
  cbn [replace_scan]. unfold startswith.
  change (String a (old ++ t)) with (String a old ++ t).
  rewrite prefix_app. cbn [String.length Nat.sub]. rewrite Nat.sub_0_r.
  now rewrite replace_scan_skip.
Qed.

Lemma replace_prefix_once c (version_prefix t : string) :
  Spec.has_char c version_prefix = true -> Spec.has_char c t = false ->
  replace (version_prefix ++ t) version_prefix "" = t.
Proof.
  intros Hp Ht.
  destruct version_prefix as [| a p]; [discriminate Hp |].
  unfold replace. rewrite replace_scan_head by discriminate.
  cbn [append]. now apply replace_scan_no_occurrence with c.
Qed.

(** A suffix whose first character the body lacks is found at the end
    only. *)
Lemma replace_suffix_once c (s' : string) : forall body,
  Spec.has_char c body = false ->
  replace (body ++ String c s') (String c s') "" = body.
Proof.
  unfold replace. induction body as [| x body IH]; intros Hb.
  - cbn [append].
    rewrite <- (str_app_nil_r (String c s')) at 1.
    rewrite replace_scan_head by discriminate. reflexivity.
  - simpl in Hb. apply orb_false_iff in Hb as [Hx Hb].
    change (String x body ++ String c s')
      with (String x (body ++ String c s')).
    cbn [replace_scan startswith String.prefix].
    destruct (ascii_dec c x) as [-> | _].
    + now rewrite Ascii.eqb_refl in Hx.
    + now rewrite (IH Hb).
Qed.

Lemma startswith_app (p t : string) : startswith (p ++ t) p = true.
Proof. apply prefix_app. Qed.

Lemma endswith_app (a s : string) : endswith (a ++ s) s = true.
Proof.
  unfold endswith. rewrite str_length_app.
  replace (String.length a + String.length s <? String.length s)%nat
    with false by (symmetry; apply Nat.ltb_ge; lia).
  replace (String.length a + String.length s - String.length s)%nat
    with (String.length a) by lia.
  rewrite substring_skip.
  rewrite <- (str_app_nil_r s) at 2. rewrite substring_head.
  apply String.eqb_refl.
Qed.

Lemma to_str_version_chars v :
  prerelease v = None -> build v = None ->
  forallb_str Spec.is_version_char (Semver.to_str v) = true.
Proof.
  intros Hp Hb. rewrite (to_str_plain v Hp Hb), !forallb_str_app.
  assert (Hd : forall n,
             forallb_str Spec.is_version_char (str_of_int n) = true).
  { intros n. apply forallb_str_impl with is_digit;
      [| apply str_of_int_digits].
    intros c Hc. unfold Spec.is_version_char. now rewrite Hc. }
  now rewrite !Hd.
Qed.

(** X13 — Reading back a rendered name.  When the prefix is empty or has
    a character that is neither a digit, nor a dot, nor a character of the
    suffix, and the suffix is empty or does not start with a digit or a
    dot, the scan recognises the name rendered in non-snapshot mode for a
    version without prerelease and build parts, extracts the text of the
    version from it and parses the version back. *)
Theorem X13_safe_affixes_read_back v (version_prefix version_suffix : string)
    patch_version :
  prerelease v = None -> build v = None ->
  Spec.safe_prefix version_prefix version_suffix ->
  Spec.safe_suffix version_suffix ->
  let name :=
    generate_version_name v version_prefix version_suffix false
      patch_version in
  Spec.matches_pattern name version_prefix version_suffix = true
  /\ extracted_version name version_prefix version_suffix = Semver.to_str v
  /\ Semver.parse (extracted_version name version_prefix version_suffix)
     = Some v.
Proof.
  intros Hpre Hbld Hp Hs name.
  assert (Hname : name = version_prefix ++ Semver.to_str v ++ version_suffix)
    by reflexivity.
  assert (Hchars := to_str_version_chars v Hpre Hbld).
  assert (Hex : extracted_version name version_prefix version_suffix
                = Semver.to_str v).
  { rewrite Hname. unfold extracted_version.
    assert (H1 : replace (version_prefix ++ Semver.to_str v ++ version_suffix)
                   version_prefix ""
                 = Semver.to_str v ++ version_suffix).
    { destruct Hp as [-> | [c [Hc [Hv Hcs]]]].
      - cbn [append]. apply replace_empty_pattern_id.
      - apply replace_prefix_once with c; [exact Hc |].
        rewrite has_char_app, Hcs, orb_false_r.
        now apply has_char_outside with Spec.is_version_char. }
    rewrite H1.
    destruct version_suffix as [| c s'].
    - rewrite str_app_nil_r. apply replace_empty_pattern_id.
    - apply replace_suffix_once.
      now apply has_char_outside with Spec.is_version_char. }
  repeat apply conj.
  - rewrite Hname. unfold Spec.matches_pattern.
    rewrite startswith_app, <- str_app_assoc, endswith_app. reflexivity.
  - exact Hex.
  - rewrite Hex. destruct v as [a b c pre bld]. simpl in Hpre, Hbld.
    subst. apply parse_to_str.
Qed.

Lemma str_app_inv_head (p a b : string) : p ++ a = p ++ b -> a = b.
Proof.
  induction p as [| x p IH]; simpl; [tauto |]. intros [= H]. now apply IH.
Qed.

Lemma str_app_inv (a : string) : forall b s t,
  String.length a = String.length b -> a ++ s = b ++ t -> a = b /\ s = t.
Proof.
  induction a as [| x a IH]; intros [| y b] s t Hlen H;
    try discriminate Hlen; [now split |].
  simpl in *. injection H as -> H. injection Hlen as Hlen.
  destruct (IH b s t Hlen H) as [-> ->]. now split.
Qed.

Lemma str_app_inv_tail (a b s : string) : a ++ s = b ++ s -> a = b.
Proof.
  intros H. apply (str_app_inv a b s s); [| exact H].
  apply (f_equal String.length) in H. rewrite !str_length_app in H. lia.
Qed.

(** X14 — Names and versions.  In non-snapshot mode two versions without
    prerelease and build parts that are rendered to the same name are the
    same version; in snapshot mode two versions get the same name exactly
    when they agree on major and minor. *)
Theorem X14_names_identify_versions (version_prefix version_suffix : string) :
  (forall v v' patch_version patch_version',
     prerelease v = None -> build v = None ->
     prerelease v' = None -> build v' = None ->
     generate_version_name v version_prefix version_suffix false
       patch_version
     = generate_version_name v' version_prefix version_suffix false
         patch_version' ->
     v = v')
  /\ (forall v v',
        generate_version_name v version_prefix version_suffix true
          (Some "SNAPSHOT")
        = generate_version_name v' version_prefix version_suffix true
            (Some "SNAPSHOT")
        <-> major v = major v' /\ minor v = minor v').
Proof.
  split.
  - intros [a b c pre bld] [a' b' c' pre' bld'] pv pv'. simpl.
    intros -> -> -> -> H.
    change (version_prefix ++ Semver.to_str (mkVersion a b c None None)
            ++ version_suffix
            = version_prefix ++ Semver.to_str (mkVersion a' b' c' None None)
              ++ version_suffix) in H.
    apply str_app_inv_head, str_app_inv_tail in H.
    pose proof (parse_to_str a b c) as P. rewrite H, parse_to_str in P.
    now injection P as <- <- <-.
  - intros v v'.
    change (generate_version_name v version_prefix version_suffix true
              (Some "SNAPSHOT"))
      with (version_prefix ++ str_of_int (major v) ++ "."
            ++ str_of_int (minor v) ++ "-SNAPSHOT" ++ version_suffix).
    change (generate_version_name v' version_prefix version_suffix true
              (Some "SNAPSHOT"))
      with (version_prefix ++ str_of_int (major v') ++ "."
            ++ str_of_int (minor v') ++ "-SNAPSHOT" ++ version_suffix).
    split.
    + intros H. apply str_app_inv_head in H.
      pose proof (numeric_str_of_int (major v)
                    ("." ++ str_of_int (minor v) ++ "-SNAPSHOT"
                     ++ version_suffix) eq_refl) as P.
      rewrite H, numeric_str_of_int in P by reflexivity.
      injection P as Hmaj Hrest.
      pose proof (numeric_str_of_int (minor v)
                    ("-SNAPSHOT" ++ version_suffix) eq_refl) as Q.
      cbn [append] in Hrest, Q.
      rewrite <- Hrest, numeric_str_of_int in Q by reflexivity.
      injection Q as Hmin. now split.
    + now intros [-> ->].
Qed.

End NameProperties.

(* ===================================================================== *)
(** ** Further properties of the sets *)
(* ===================================================================== *)

Section SetProperties.
Import Semver(Version, mkVersion, major, minor, patch, hash_key).
Import Proc Main.

Lemma filter_is_set (f : Version -> bool) vs :
  Spec.is_set vs -> Spec.is_set (filter f vs).
Proof.
  unfold Spec.is_set. induction vs as [| x vs IH]; simpl; intros H;
    [exact H |].
  inversion H as [| k ks Hnotin Hrest]; subst.
  destruct (f x); simpl; [constructor |]; auto.
  intros Hin. apply Hnotin.
  apply in_map_iff in Hin. destruct Hin as [y [Hy Hin]].
  apply filter_In in Hin. apply in_map_iff. exists y. tauto.
Qed.

Lemma filter_versions_is_set versions fmajor fminor :
  Spec.is_set versions ->
  Spec.is_set (filter_versions versions fmajor fminor).
Proof.
  intros Hset. destruct fmajor as [M |]; [| exact Hset].
  rewrite filter_versions_filter by exact Hset. now apply filter_is_set.
Qed.

Lemma filter_twice {A} (f g : A -> bool) l :
  (forall x, f x = true -> g x = true) ->
  filter f (filter g l) = filter f l.
Proof.
  intros Hfg. induction l as [| x l IH]; [reflexivity |].
  simpl. destruct (g x) eqn:Eg; simpl.
  - now rewrite IH.
  - destruct (f x) eqn:Ef; [| exact IH].
    apply Hfg in Ef. congruence.
Qed.

(** In the list that stands for the set, filtering again with the same
    filters, or by major alone and then by major and minor, gives the
    list that filtering once gives. *)
Lemma filter_versions_again versions fmajor fminor :
  Spec.is_set versions ->
  filter_versions (filter_versions versions fmajor fminor) fmajor fminor
  = filter_versions versions fmajor fminor.
Proof.
  intros Hset. destruct fmajor as [M |]; [| reflexivity].
  rewrite filter_versions_filter
    by now apply (filter_versions_is_set versions (Some M) fminor).
  rewrite filter_versions_filter by exact Hset.
  now apply filter_twice.
Qed.

Lemma filter_versions_by_steps versions fmajor fminor :
  Spec.is_set versions ->
  filter_versions (filter_versions versions (Some fmajor) None)
                  (Some fmajor) (Some fminor)
  = filter_versions versions (Some fmajor) (Some fminor).
Proof.
  intros Hset.
  rewrite filter_versions_filter
    by now apply (filter_versions_is_set versions (Some fmajor) None).
  rewrite !filter_versions_filter by exact Hset.
  apply filter_twice. intros x. unfold Spec.selectedb.
  rewrite !andb_true_iff. tauto.
Qed.

(** X11 — Filtering a set of versions.  The result is again a set;
    filtering it again with the same filters keeps every member and adds
    none; and filtering by major alone and then by major and minor gives
    the members that filtering by major and minor gives. *)
Theorem X11_filter_again_and_by_steps versions :
  Spec.is_set versions ->
  (forall fmajor fminor,
     Spec.is_set (filter_versions versions fmajor fminor))
  /\ (forall fmajor fminor v,
        In v (filter_versions (filter_versions versions fmajor fminor)
                              fmajor fminor)
        <-> In v (filter_versions versions fmajor fminor))
  /\ (forall fmajor fminor v,
        In v (filter_versions (filter_versions versions (Some fmajor) None)
                              (Some fmajor) (Some fminor))
        <-> In v (filter_versions versions (Some fmajor) (Some fminor))).
Proof.
  intros Hset. repeat apply conj.
  - intros fmajor fminor. now apply filter_versions_is_set.
  - intros fmajor fminor v.
    rewrite filter_versions_again by exact Hset. reflexivity.
  - intros fmajor fminor v.
    rewrite filter_versions_by_steps by exact Hset. reflexivity.
Qed.

Lemma add_string_NoDup tags name :
  NoDup tags -> NoDup (PySet.add String.eqb tags name).
Proof.
  intros Hnd. unfold PySet.add.
  destruct (PySet.contains String.eqb tags name) eqn:E; [exact Hnd |].
  apply NoDup_rev in Hnd. rewrite <- rev_involutive. apply NoDup_rev.
  rewrite rev_app_distr. simpl. constructor; [| exact Hnd].
  rewrite <- in_rev. intros Hin. apply contains_string in Hin. congruence.
Qed.

Lemma scan_tags_NoDup refs : forall tags,
  NoDup tags -> NoDup (fold_left Spec.scan_tags refs tags).
Proof.
  induction refs as [| ref refs IH]; intros tags Hnd; [exact Hnd |].
  simpl. apply IH. destruct ref; simpl; auto. now apply add_string_NoDup.
Qed.

(** X12 — The two sets of the scan.  The set of all tags holds each tag
    name of the repository once and nothing else (the names of branches
    and remote references are not in it unless a tag has the same name),
    whatever the prefix and the suffix; and no two members of the version
    set have the same major, minor, patch and prerelease. *)
Theorem X12_scan_builds_sets repo version_prefix version_suffix :
  NoDup (tag_set repo version_prefix version_suffix)
  /\ (forall name,
        In name (tag_set repo version_prefix version_suffix)
        <-> In (TagReference name) (references repo))
  /\ (forall version_prefix' version_suffix',
        tag_set repo version_prefix' version_suffix'
        = tag_set repo version_prefix version_suffix)
  /\ NoDup (map hash_key (version_set repo version_prefix version_suffix)).
Proof.
  repeat apply conj.
  - rewrite tag_set_view. apply scan_tags_NoDup. constructor.
  - intros name. apply tag_set_In.
  - intros p' s'. now rewrite !tag_set_view.
  - apply version_set_is_set.
Qed.

End SetProperties.

(* ===================================================================== *)
(** ** Further properties of the selection *)
(* ===================================================================== *)

Section SelectionFacts.
Import Semver(Version, mkVersion, major, minor, patch, prerelease, build,
              hash_key, bump_patch).
Import Proc Main.

Lemma add_keys s x k :
  In k (map hash_key (PySet.add same_version s x))
  <-> In k (map hash_key s) \/ k = hash_key x.
Proof.
  unfold PySet.add. destruct (PySet.contains same_version s x) eqn:E.
  - apply contains_key in E. split; [auto | intros [H | ->]; assumption].
  - rewrite map_app, in_app_iff. simpl. intuition.
Qed.

(** Passing the filters is a matter of major and minor only. *)
Lemma passes_filter_line fmajor fminor w w' :
  major w = major w' -> minor w = minor w' ->
  Spec.passes_filter fmajor fminor w -> Spec.passes_filter fmajor fminor w'.
Proof.
  destruct fmajor as [M |]; [| trivial].
  unfold Spec.passes_filter, Spec.selected. now intros -> ->.
Qed.

Lemma passes_filter_key fmajor fminor w w' :
  hash_key w = hash_key w' ->
  Spec.passes_filter fmajor fminor w -> Spec.passes_filter fmajor fminor w'.
Proof.
  unfold hash_key. intros [= Hma Hmi _ _]. now apply passes_filter_line.
Qed.

Lemma key_triple w w' :
  hash_key w = hash_key w' -> Spec.triple_le w w'.
Proof.
  unfold hash_key, Spec.triple_le. intros [= -> -> -> _]. lia.
Qed.

(** The keys of what the loop of [filter_versions] builds. *)
Lemma filter_loop_keys fmajor fminor vs : forall acc k,
  In k (map hash_key (filter_versions_loop fmajor fminor vs acc))
  <-> In k (map hash_key acc)
      \/ exists w, In w vs /\ Spec.selected fmajor fminor w
                   /\ hash_key w = k.
Proof.
  unfold filter_versions_loop.
  induction vs as [| x vs IH]; intros acc k.
  - simpl. split; [auto | intros [H | [w [[] _]]]; exact H].
  - cbn [fold_left].
    match goal with
    | |- In k (map hash_key (fold_left _ _ ?a)) <-> _ => set (acc' := a)
    end.
    assert (Hacc' : forall k',
               In k' (map hash_key acc')
               <-> In k' (map hash_key acc)
                   \/ (Spec.selected fmajor fminor x /\ k' = hash_key x)).
    { intros k'. subst acc'.
      rewrite <- selectedb_spec. unfold Spec.selectedb.
      destruct (Z.of_N (major x) =? fmajor)%Z; simpl;
        [| intuition discriminate].
      destruct (match fminor with
                | Some m => (Z.of_N (minor x) =? m)%Z
                | None => true
                end); [| intuition discriminate].
      rewrite add_keys. intuition. }
    rewrite (IH acc' k), Hacc'. split.
    + intros [[H | [Hs ->]] | [w [Hw [Hs Hk]]]]; auto.
      * right. exists x. simpl. auto.
      * right. exists w. simpl. auto.
    + intros [H | [w [[<- | Hw] [Hs Hk]]]]; auto.
      right. now exists w.
Qed.

Lemma filter_versions_keys versions fmajor fminor k :
  In k (map hash_key (filter_versions versions fmajor fminor))
  <-> exists w, In w versions /\ Spec.passes_filter fmajor fminor w
                /\ hash_key w = k.
Proof.
  destruct fmajor as [M |]; simpl.
  - rewrite filter_loop_keys. simpl. split; [intros [[] | H] | right]; auto.
  - rewrite in_map_iff. split; intros [w H]; exists w; tauto.
Qed.

Lemma filter_versions_passes versions fmajor fminor w :
  In w (filter_versions versions fmajor fminor) ->
  Spec.passes_filter fmajor fminor w.
Proof.
  intros Hin.
  assert (Hk : In (hash_key w)
                  (map hash_key (filter_versions versions fmajor fminor)))
    by now apply in_map.
  apply filter_versions_keys in Hk. destruct Hk as [w' [_ [Hp Hk]]].
  now apply passes_filter_key with w'.
Qed.

(** A member of the version set that passes the filters has a
    representative in the filtered set. *)
Lemma passing_member_filtered versions fmajor fminor w :
  In w versions -> Spec.passes_filter fmajor fminor w ->
  exists w', In w' (filter_versions versions fmajor fminor)
             /\ hash_key w' = hash_key w.
Proof.
  intros Hin Hp.
  assert (Hk : In (hash_key w)
                  (map hash_key (filter_versions versions fmajor fminor))).
  { apply filter_versions_keys. now exists w. }
  apply in_map_iff in Hk. destruct Hk as [w' [Hk Hw']]. now exists w'.
Qed.

Lemma below_bump_patch w m :
  Spec.triple_le w m -> Spec.triple_lt w (bump_patch m).
Proof. unfold Spec.triple_lt, Spec.triple_le, bump_patch. simpl. lia. Qed.

(** The three ways a version gets selected. *)
Lemma increased_version_cases versions filtered fmajor fminor v :
  result (increased_version versions filtered fmajor fminor) = Ret v ->
  (versions = [] /\ v = mkVersion 1 0 0 None None)
  \/ (versions <> [] /\ filtered = []
      /\ exists M, fmajor = Some M /\ (0 <= M)%Z
                   /\ (0 <= Spec.minor_or_0 fminor)%Z
                   /\ v = mkVersion (Z.to_N M)
                            (Z.to_N (Spec.minor_or_0 fminor)) 0 None None)
  \/ (versions <> [] /\ filtered <> []
      /\ exists m, Spec.is_max m filtered /\ v = bump_patch m).
Proof.
  unfold increased_version. intros H.
  destruct versions as [| x versions]; [injection H as <-; now left |].
  cbn [List.length Nat.eqb] in H. right.
  destruct filtered as [| y filtered]; cbn [List.length Nat.eqb] in H.
  - left. split; [discriminate | split; [reflexivity |]].
    destruct fmajor as [M |]; [| discriminate H].
    cbv zeta in H. rewrite minor_or_0_truthy in H.
    unfold Semver.Version_init in H.
    destruct (Z.ltb_spec M 0); [discriminate H |].
    destruct (Z.ltb_spec (Spec.minor_or_0 fminor) 0); [discriminate H |].
    simpl in H. injection H as <-. exists M. repeat split; assumption.
  - right. split; [discriminate | split; [discriminate |]].
    destruct (max_is_max (y :: filtered) ltac:(discriminate))
      as [m [Hmax Hm]].
    rewrite Hmax in H. simpl in H. injection H as <-. now exists m.
Qed.

Lemma selected_passes_filter versions fmajor fminor v :
  versions <> [] ->
  result (increased_version versions
            (filter_versions versions fmajor fminor) fmajor fminor) = Ret v ->
  Spec.passes_filter fmajor fminor v.
Proof.
  intros Hne Hsel. apply increased_version_cases in Hsel.
  destruct Hsel as [[-> _] | [[_ [_ [M [-> [HM [Hm ->]]]]]]
                            | [_ [_ [m [[Hin _] ->]]]]]];
    [congruence | |].
  - unfold Spec.passes_filter, Spec.selected. cbn [major minor].
    split; [now apply Z2N.id |].
    intros m ->. cbn [Spec.minor_or_0] in *. now apply Z2N.id.
  - apply filter_versions_passes in Hin.
    now apply passes_filter_line with m.
Qed.

Lemma selected_above_filtered versions fmajor fminor v w :
  result (increased_version versions
            (filter_versions versions fmajor fminor) fmajor fminor) = Ret v ->
  In w (filter_versions versions fmajor fminor) ->
  Spec.triple_lt w v.
Proof.
  intros Hsel Hw. apply increased_version_cases in Hsel.
  destruct Hsel as [[-> _] | [[_ [Hnil _]] | [_ [_ [m [[_ Hup] ->]]]]]].
  - now rewrite filter_versions_nil in Hw.
  - now rewrite Hnil in Hw.
  - apply below_bump_patch. now apply Hup.
Qed.

Lemma selected_not_member versions fmajor fminor v :
  result (increased_version versions
            (filter_versions versions fmajor fminor) fmajor fminor) = Ret v ->
  PySet.contains same_version versions v = false.
Proof.
  intros Hsel.
  destruct versions as [| x versions']; [reflexivity |].
  set (versions := x :: versions') in *.
  assert (Hne : versions <> []) by discriminate.
  destruct (PySet.contains same_version versions v) eqn:E; [| reflexivity].
  exfalso. apply contains_key, in_map_iff in E.
  destruct E as [w [Hk Hw]].
  pose proof (selected_passes_filter _ _ _ _ Hne Hsel) as Hp.
  apply passes_filter_key with (w' := w) in Hp; [| now symmetry].
  destruct (passing_member_filtered _ _ _ _ Hw Hp) as [w' [Hw' Hk']].
  destruct (selected_above_filtered _ _ _ _ _ Hsel Hw') as [_ Hnot].
  apply Hnot, key_triple. congruence.
Qed.

(** X8 — The selected version is new.  It is not a member of the version
    set, it is strictly above every member of the filtered set in the
    order of (major, minor, patch), and, when the version set is not
    empty, it passes the filters itself. *)
Theorem X8_selected_version_is_new versions fmajor fminor v :
  result (increased_version versions
            (filter_versions versions fmajor fminor) fmajor fminor) = Ret v ->
  PySet.contains same_version versions v = false
  /\ (forall w,
        In w (filter_versions versions fmajor fminor) -> Spec.triple_lt w v)
  /\ (versions <> [] -> Spec.passes_filter fmajor fminor v).
Proof.
  intros Hsel. repeat apply conj.
  - now apply selected_not_member with fmajor fminor.
  - intros w. now apply selected_above_filtered.
  - intros Hne. now apply selected_passes_filter with versions.
Qed.

Lemma version_set_with_tag repo version_prefix version_suffix name v :
  Spec.matches_pattern name version_prefix version_suffix = true ->
  Semver.parse (extracted_version name version_prefix version_suffix)
  = Some v ->
  version_set (Spec.with_tag repo name) version_prefix version_suffix
  = PySet.add same_version
      (version_set repo version_prefix version_suffix) v.
Proof.
  intros Hm Hp. rewrite !version_set_view. unfold Spec.with_tag.
  cbn [references]. rewrite fold_left_app. cbn [fold_left].
  unfold Spec.scan_versions at 1. now rewrite Hm, Hp.
Qed.

(** Filtering a set to which a new member that passes the filters has
    been added. *)
Lemma filter_versions_snoc versions fmajor fminor v :
  Spec.passes_filter fmajor fminor v ->
  PySet.contains same_version versions v = false ->
  filter_versions (versions ++ [v]) fmajor fminor
  = filter_versions versions fmajor fminor ++ [v].
Proof.
  intros Hp Hnew. destruct fmajor as [M |]; [| reflexivity].
  unfold filter_versions, filter_versions_loop.
  rewrite fold_left_app. cbn [fold_left].
  fold (filter_versions_loop M fminor versions []).
  fold (filter_versions versions (Some M) fminor).
  apply selectedb_spec in Hp. unfold Spec.selectedb in Hp.
  apply andb_true_iff in Hp as [Hmaj Hmin]. rewrite Hmaj, Hmin.
  unfold PySet.add.
  destruct (PySet.contains same_version
              (filter_versions versions (Some M) fminor) v) eqn:E;
    [| reflexivity].
  apply contains_key, filter_versions_keys in E.
  destruct E as [w [Hw [_ Hk]]].
  assert (Hc : PySet.contains same_version versions v = true).
  { apply contains_key. rewrite <- Hk. now apply in_map. }
  congruence.
Qed.

(** X9 — The next run continues the line.  Once a tag that the scan reads
    back as the selected version [v] has been added to the repository, a
    run with the same prefix, suffix and filters selects the version
    after [v]: same major and minor, patch greater by one.  (When the
    repository had no version at all, the first version 1.0.0 has to pass
    the filters for this.) *)
Theorem X9_next_run_continues_the_line repo version_prefix version_suffix
    fmajor fminor v name :
  next_version repo version_prefix version_suffix fmajor fminor = Ret v ->
  (version_set repo version_prefix version_suffix = [] ->
   Spec.passes_filter fmajor fminor v) ->
  Spec.matches_pattern name version_prefix version_suffix = true ->
  Semver.parse (extracted_version name version_prefix version_suffix)
  = Some v ->
  next_version (Spec.with_tag repo name) version_prefix version_suffix
               fmajor fminor
  = Ret (bump_patch v).
Proof.
  unfold next_version. intros Hsel Hfirst Hm Hparse.
  set (versions := version_set repo version_prefix version_suffix) in *.
  assert (Hpass : Spec.passes_filter fmajor fminor v).
  { destruct versions as [| x l] eqn:E; [now apply Hfirst |].
    apply selected_passes_filter with versions; subst versions;
      rewrite E; [discriminate | exact Hsel]. }
  pose proof (selected_not_member _ _ _ _ Hsel) as Hnew.
  rewrite (version_set_with_tag _ _ _ _ _ Hm Hparse).
  fold versions. unfold PySet.add. rewrite Hnew.
  rewrite (filter_versions_snoc _ _ _ _ Hpass Hnew).
  assert (Hmax : Spec.is_max v
                   (filter_versions versions fmajor fminor ++ [v])).
  { split; [apply in_or_app; right; now left |].
    intros w Hw. apply in_app_or in Hw. destruct Hw as [Hw | [<- | []]].
    - now apply (selected_above_filtered _ _ _ _ _ Hsel Hw).
    - apply triple_le_refl. }
  destruct (increased_version_max_run (versions ++ [v])
              (filter_versions versions fmajor fminor ++ [v]) fmajor fminor)
    as [m0 [Hm0 Hrun]].
  - intros E. now apply app_eq_nil in E as [_ E].
  - rewrite <- (filter_versions_snoc _ _ _ _ Hpass Hnew).
    apply filter_versions_incl.
  - rewrite Hrun. f_equal. symmetry.
    now apply bump_patch_of_maxima
      with (filter_versions versions fmajor fminor ++ [v]).
Qed.

(** The keys of the version set are those of the versions parsed from the
    tags of the naming convention. *)
Lemma version_set_keys repo version_prefix version_suffix k :
  In k (map hash_key (version_set repo version_prefix version_suffix))
  <-> exists name v,
        In (TagReference name) (references repo)
        /\ Spec.matches_pattern name version_prefix version_suffix = true
        /\ Semver.parse (extracted_version name version_prefix version_suffix)
           = Some v
        /\ hash_key v = k.
Proof.
  rewrite version_set_view. split.
  - intros Hk. apply in_map_iff in Hk. destruct Hk as [v [Hk Hv]].
    apply scan_versions_In in Hv.
    destruct Hv as [[] | [name [Hin [Hm Hp]]]]. now exists name, v.
  - intros [name [v [Hin [Hm [Hp <-]]]]].
    apply contains_key. now apply scan_versions_accepts with name.
Qed.

(** The outcome of the selection is a function of the keys of the version
    set. *)
Lemma selection_by_keys vs vs' fmajor fminor :
  (forall k, In k (map hash_key vs) <-> In k (map hash_key vs')) ->
  result (increased_version vs (filter_versions vs fmajor fminor)
            fmajor fminor)
  = result (increased_version vs' (filter_versions vs' fmajor fminor)
              fmajor fminor).
Proof.
  intros Hkeys.
  assert (Hfkeys : forall k,
             In k (map hash_key (filter_versions vs fmajor fminor))
             <-> In k (map hash_key (filter_versions vs' fmajor fminor))).
  { assert (Hhalf : forall a b,
               (forall k, In k (map hash_key a) -> In k (map hash_key b)) ->
               forall k,
                 In k (map hash_key (filter_versions a fmajor fminor)) ->
                 In k (map hash_key (filter_versions b fmajor fminor))).
    { intros a b Hab k Hk. apply filter_versions_keys in Hk.
      destruct Hk as [w [Hw [Hp <-]]].
      assert (Hb : In (hash_key w) (map hash_key b))
        by (apply Hab; now apply in_map).
      apply in_map_iff in Hb. destruct Hb as [w' [Hk' Hw']].
      apply filter_versions_keys. exists w'.
      repeat split; try assumption.
      apply passes_filter_key with w; [now symmetry | exact Hp]. }
    intros k. split; apply Hhalf; intros k'; apply Hkeys. }
  assert (Hnil : forall a b : list Version,
             (forall k, In k (map hash_key a) <-> In k (map hash_key b)) ->
             a = [] -> b = []).
  { intros a [| y b] Hab ->; [reflexivity |].
    destruct (proj2 (Hab (hash_key y))). now left. }
  assert (Hup : forall a b m m',
             (forall k, In k (map hash_key a) -> In k (map hash_key b)) ->
             Spec.is_max m a -> Spec.is_max m' b -> Spec.triple_le m m').
  { intros a b m m' Hab [Hin _] [_ Hup'].
    assert (Hb : In (hash_key m) (map hash_key b))
      by (apply Hab; now apply in_map).
    apply in_map_iff in Hb. destruct Hb as [w [Hk Hw]].
    apply triple_le_trans with w; [apply key_triple; now symmetry |].
    now apply Hup'. }
  assert (Hlen : forall a b : list Version,
             (forall k, In k (map hash_key a) <-> In k (map hash_key b)) ->
             (List.length a =? 0)%nat = (List.length b =? 0)%nat).
  { intros a b Hab. destruct a as [| x a]; destruct b as [| y b];
      try reflexivity.
    - now discriminate (Hnil [] (y :: b) Hab eq_refl).
    - assert (Hba : forall k, In k (map hash_key []) <->
                              In k (map hash_key (x :: a)))
        by (intros k; symmetry; apply Hab).
      now discriminate (Hnil [] (x :: a) Hba eq_refl). }
  unfold increased_version.
  rewrite (Hlen vs vs' Hkeys), (Hlen _ _ Hfkeys).
  destruct (List.length vs' =? 0)%nat; [reflexivity |].
  destruct (List.length (filter_versions vs' fmajor fminor) =? 0)%nat eqn:E;
    [reflexivity |].
  assert (Hne' : filter_versions vs' fmajor fminor <> []).
  { intros E'. rewrite E' in E. discriminate E. }
  assert (Hne : filter_versions vs fmajor fminor <> []).
  { intros E'. rewrite <- (Hlen _ _ Hfkeys), E' in E. discriminate E. }
  destruct (max_is_max _ Hne) as [m [-> Hm]].
  destruct (max_is_max _ Hne') as [m' [-> Hm']].
  cbn. f_equal.
  destruct (triple_le_antisym m m') as [H1 [H2 H3]].
  - apply (Hup _ _ m m' (fun k => proj1 (Hfkeys k)) Hm Hm').
  - apply (Hup _ _ m' m (fun k => proj2 (Hfkeys k)) Hm' Hm).
  - now apply bump_patch_triple.
Qed.

(** How a run ends, from the selection and the set of all tags. *)
Lemma run_result repo version_prefix version_suffix fmajor fminor
    create_no_git_tag pull_before create_snapshot_version verbose :
  result
    (calculate_new_version repo version_prefix version_suffix fmajor fminor
       create_no_git_tag pull_before create_snapshot_version verbose)
  = match next_version repo version_prefix version_suffix fmajor fminor with
    | Ret v =>
        let name :=
          generate_version_name v version_prefix version_suffix
            create_snapshot_version (Some "SNAPSHOT"%string) in
        if create_no_git_tag then Ret tt
        else if PySet.contains String.eqb
                  (tag_set repo version_prefix version_suffix) name
        then Exit 1 else Ret tt
    | Exit c => Exit c
    | Raise e => Raise e
    end.
Proof.
  rewrite calculate_new_version_view. cbv zeta. unfold next_version.
  destruct (result (increased_version _ _ fmajor fminor)) as [v | c | e];
    try reflexivity.
  destruct create_no_git_tag; [reflexivity |].
  now destruct (PySet.contains String.eqb _ _).
Qed.

(** X10 — Only the set of tag names counts.  Two repositories with the
    same tag names, in whatever order and however often each is listed,
    and whatever their remotes, give the same selected version and the
    same computed name, and the same names are found among their tags.  A
    dry run without [pull_before], which calls no git operation, ends in
    the same way and prints the same on both. *)
Theorem X10_same_tags_same_selection repo repo' version_prefix
    version_suffix fmajor fminor create_snapshot_version :
  Spec.same_tags repo repo' ->
  next_version repo version_prefix version_suffix fmajor fminor
  = next_version repo' version_prefix version_suffix fmajor fminor
  /\ next_tag_name repo version_prefix version_suffix fmajor fminor
                   create_snapshot_version
     = next_tag_name repo' version_prefix version_suffix fmajor fminor
                     create_snapshot_version
  /\ (forall name,
        PySet.contains String.eqb
          (tag_set repo version_prefix version_suffix) name
        = PySet.contains String.eqb
            (tag_set repo' version_prefix version_suffix) name)
  /\ (forall verbose,
        let run :=
          calculate_new_version repo version_prefix version_suffix
            fmajor fminor true false create_snapshot_version verbose in
        let run' :=
          calculate_new_version repo' version_prefix version_suffix
            fmajor fminor true false create_snapshot_version verbose in
        Spec.remote_reads (trace run) = []
        /\ created_tags (trace run) = []
        /\ pushes (trace run) = []
        /\ result run = result run'
        /\ exit_status run = exit_status run'
        /\ stdout (trace run) = stdout (trace run')).
Proof.
  intros Hsame.
  assert (Hnext : next_version repo version_prefix version_suffix
                    fmajor fminor
                  = next_version repo' version_prefix version_suffix
                      fmajor fminor).
  { unfold next_version. apply selection_by_keys. intros k.
    rewrite !version_set_keys.
    split; intros [name [v [Hin H]]]; exists name, v;
      (split; [now apply Hsame | exact H]). }
  assert (Hname : next_tag_name repo version_prefix version_suffix fmajor
                    fminor create_snapshot_version
                  = next_tag_name repo' version_prefix version_suffix fmajor
                      fminor create_snapshot_version).
  { unfold next_tag_name. now rewrite Hnext. }
  repeat apply conj; [exact Hnext | exact Hname | |].
  - intros name.
    destruct (PySet.contains String.eqb
                (tag_set repo' version_prefix version_suffix) name) eqn:E.
    + apply contains_string, tag_set_In. apply Hsame.
      now apply contains_string, tag_set_In in E.
    + destruct (PySet.contains String.eqb
                  (tag_set repo version_prefix version_suffix) name) eqn:E';
        [| reflexivity].
      apply contains_string, tag_set_In, Hsame in E'.
      apply tag_set_In with (version_prefix := version_prefix)
                            (version_suffix := version_suffix),
            contains_string in E'.
      congruence.
  - intros verbose run run'.
    pose proof (run_observables repo version_prefix version_suffix fmajor
                  fminor true false create_snapshot_version verbose)
      as Hobs.
    pose proof (run_observables repo' version_prefix version_suffix fmajor
                  fminor true false create_snapshot_version verbose)
      as Hobs'.
    cbv zeta in Hobs, Hobs'. fold run in Hobs. fold run' in Hobs'.
    rewrite Hname in Hobs.
    assert (Hr : result run = result run').
    { subst run run'. rewrite !run_result, Hnext. reflexivity. }
    assert (Hreads : Spec.remote_reads (trace run) = []).
    { subst run.
      destruct (remote_reads_of_run repo version_prefix version_suffix
                  fmajor fminor true false create_snapshot_version verbose)
        as [Hall _].
      exact Hall. }
    unfold exit_status. rewrite Hr.
    destruct (next_tag_name repo' _ _ _ _ _) as [n |].
    + destruct Hobs as [_ [Ho [Hc [Hp _]]]].
      destruct Hobs' as [_ [Ho' _]].
      rewrite Ho, Ho'. repeat apply conj; auto.
    + destruct Hobs as [_ [Ho [Hc [Hp _]]]].
      destruct Hobs' as [_ [Ho' _]].
      rewrite Ho, Ho'. repeat apply conj; auto.
Qed.

End SelectionFacts.

Section SnapshotRuns.
Import Semver(Version, mkVersion, major, minor, patch, hash_key, bump_patch).
Import Proc Main.

Lemma version_set_with_foreign_tag repo version_prefix version_suffix name :
  Spec.matches_pattern name version_prefix version_suffix = false
  \/ Semver.parse (extracted_version name version_prefix version_suffix)
     = None ->
  version_set (Spec.with_tag repo name) version_prefix version_suffix
  = version_set repo version_prefix version_suffix.
Proof.
  intros H. rewrite !version_set_view. unfold Spec.with_tag.
  cbn [references]. rewrite fold_left_app. cbn [fold_left].
  unfold Spec.scan_versions at 1.
  destruct H as [-> | H]; [reflexivity |].
  rewrite H. now destruct (Spec.matches_pattern _ _ _).
Qed.

(** X15 — A snapshot is tagged once.  When the tag of the computed
    snapshot name has been added to the repository and the scan reads no
    version from it (as for [v1.0-SNAPSHOT], which has no patch number),
    the next snapshot run computes the same name again; unless it is a
    dry run it stops on the collision with status 1 and creates
    nothing. *)
Theorem X15_second_snapshot_run_collides repo version_prefix version_suffix
    fmajor fminor pull_before verbose name :
  next_tag_name repo version_prefix version_suffix fmajor fminor true
  = Some name ->
  (Spec.matches_pattern name version_prefix version_suffix = false
   \/ Semver.parse (extracted_version name version_prefix version_suffix)
      = None) ->
  let repo' := Spec.with_tag repo name in
  let run :=
    calculate_new_version repo' version_prefix version_suffix fmajor fminor
      false pull_before true verbose in
  next_tag_name repo' version_prefix version_suffix fmajor fminor true
  = Some name
  /\ result run = Exit 1
  /\ exit_status run = 1%Z
  /\ created_tags (trace run) = []
  /\ pushes (trace run) = []
  /\ stdout (trace run) = [].
Proof.
  intros Hname Hforeign repo' run.
  assert (Hname' : next_tag_name repo' version_prefix version_suffix
                     fmajor fminor true = Some name).
  { unfold next_tag_name, next_version in *. subst repo'.
    now rewrite version_set_with_foreign_tag. }
  assert (Hin : PySet.contains String.eqb
                  (tag_set repo' version_prefix version_suffix) name = true).
  { apply contains_string, tag_set_In. subst repo'. unfold Spec.with_tag.
    cbn [references]. apply in_or_app. right. now left. }
  pose proof (run_observables repo' version_prefix version_suffix fmajor
                fminor false pull_before true verbose) as Hobs.
  cbv zeta in Hobs. rewrite Hname', Hin in Hobs. fold run in Hobs.
  destruct Hobs as [Hr [Ho [Hc [Hp _]]]].
  unfold exit_status. rewrite Hr. now repeat split.
Qed.

End SnapshotRuns.

(* ===================================================================== *)
(** ** The further properties at concrete repositories *)
(* ===================================================================== *)

Section FurtherInstances.
Import Semver(Version, mkVersion, major, minor, patch, prerelease, build,
              bump_patch).
Import Proc Main.
#[local] Open Scope string_scope.

(** A repository with the tag [v1.0.0] and the remotes [origin] and
    [mirror], with [pull_before]: a run that stops when the pull from
    [mirror] raises has read [origin] and fetched [mirror]. *)
Lemma X1_pull_from_mirror_raises :
  let repo := mkRepo [TagReference "v1.0.0"] ["origin"; "mirror"] in
  let t := [Log INFO "Found remote origin"; Fetch "origin"; Pull "origin";
            Log INFO "Found remote mirror"; Fetch "mirror"] in
  Spec.initial_segment (Spec.remote_reads t)
    [Fetch "origin"; Pull "origin"; Fetch "mirror"; Pull "mirror"]
  /\ exists a b,
       t = (a ++ b)%list
       /\ Spec.initial_segment a (trace (Spec.pull_part repo true))
       /\ Spec.remote_reads b = []
       /\ (b <> [] -> a = trace (Spec.pull_part repo true)).
Proof.
  cbv zeta.
  destruct (X1_remote_reads_come_first
              (mkRepo [TagReference "v1.0.0"] ["origin"; "mirror"])
              "v" "" None None false true false false
              [Log INFO "Found remote origin"; Fetch "origin"; Pull "origin";
               Log INFO "Found remote mirror"; Fetch "mirror"])
    as [_ [Hreads Hsplit]].
  - eexists. vm_compute. reflexivity.
  - split; [exact Hreads | exact Hsplit].
Defined.

(** The same repository without [pull_before]: a run that stops when the
    push to [mirror] raises has created [v1.0.1], pushed it to [origin]
    and printed nothing; the complete run has pushed it to both and
    printed it. *)
Lemma X2_push_to_mirror_raises :
  let repo := mkRepo [TagReference "v1.0.0"] ["origin"; "mirror"] in
  let run := calculate_new_version repo "v" "" None None
               false false false false in
  let t := [Log INFO "Tag v1.0.0 found"; Log INFO "Max Version is 1.0.0";
            CreateTag "v1.0.1"; Log INFO "Found remote origin";
            Push "origin" "v1.0.1"; Log INFO "Found remote mirror"] in
  (created_tags t = ["v1.0.1"]
   /\ Spec.initial_segment (pushes t)
        [("origin", "v1.0.1"); ("mirror", "v1.0.1")]
   /\ stdout t = [])
  /\ (stdout (trace run) = ["v1.0.1"]
      /\ created_tags (trace run) = ["v1.0.1"]
      /\ pushes (trace run) = [("origin", "v1.0.1"); ("mirror", "v1.0.1")]
      /\ result run = Ret tt).
Proof.
  cbv zeta. split.
  - destruct (X2_tag_then_pushes_then_print
                (mkRepo [TagReference "v1.0.0"] ["origin"; "mirror"])
                "v" "" None None false false false "v1.0.1"
                [Log INFO "Tag v1.0.0 found"; Log INFO "Max Version is 1.0.0";
                 CreateTag "v1.0.1"; Log INFO "Found remote origin";
                 Push "origin" "v1.0.1"; Log INFO "Found remote mirror"]
                eq_refl)
      as [_ [Hp [Hc Ho]]].
    + simpl. intros [H | []]. discriminate H.
    + eexists. vm_compute. reflexivity.
    + repeat apply conj.
      * apply Hc. discriminate.
      * exact Hp.
      * destruct Ho as [Ho | [Ho _]]; [exact Ho | discriminate Ho].
  - destruct (X2_tag_then_pushes_then_print
                (mkRepo [TagReference "v1.0.0"] ["origin"; "mirror"])
                "v" "" None None false false false "v1.0.1"
                (trace (calculate_new_version
                          (mkRepo [TagReference "v1.0.0"]
                             ["origin"; "mirror"])
                          "v" "" None None false false false false))
                eq_refl)
      as [_ [_ [_ Ho]]].
    + simpl. intros [H | []]. discriminate H.
    + exists []%list. now rewrite app_nil_r.
    + destruct Ho as [Ho | [Ho [Hc [Hp [_ [Hr _]]]]]];
        [discriminate Ho |].
      repeat apply conj; assumption.
Defined.

(** The major filter -1 on a repository with the tag [v1.0.0]. *)
Lemma X5_major_minus_one :
  let repo := mkRepo [TagReference "v1.0.0"] ["origin"] in
  let run := calculate_new_version repo "v" "" (Some (-1)%Z) None
               false true false true in
  result run = Raise ValueError
  /\ exit_status run = 1%Z
  /\ stdout (trace run) = []
  /\ created_tags (trace run) = []
  /\ pushes (trace run) = [].
Proof.
  cbv zeta.
  apply (X5_negative_filter_aborts
           (mkRepo [TagReference "v1.0.0"] ["origin"]) "v" ""
           (-1)%Z None false true false true).
  - vm_compute. discriminate.
  - reflexivity.
  - left. lia.
Defined.

(** After 1.0.0 and 1.1.0 the selected version 1.1.1 is not in the set. *)
Lemma X8_after_1_1_0 :
  let versions := [mkVersion 1 0 0 None None; mkVersion 1 1 0 None None] in
  PySet.contains same_version versions (mkVersion 1 1 1 None None) = false
  /\ Spec.triple_lt (mkVersion 1 1 0 None None) (mkVersion 1 1 1 None None).
Proof.
  cbv zeta.
  destruct (X8_selected_version_is_new
              [mkVersion 1 0 0 None None; mkVersion 1 1 0 None None]
              None None (mkVersion 1 1 1 None None) eq_refl)
    as [Hnew [Habove _]].
  split; [exact Hnew |]. apply Habove. simpl. tauto.
Defined.

(** Two runs in a row on a repository with the tag [v1.0.0]: 1.0.1, then
    1.0.2. *)
Lemma X9_two_runs :
  let repo := mkRepo [TagReference "v1.0.0"] [] in
  next_version repo "v" "" None None = Ret (mkVersion 1 0 1 None None)
  /\ next_version (Spec.with_tag repo "v1.0.1") "v" "" None None
     = Ret (mkVersion 1 0 2 None None).
Proof.
  cbv zeta. split; [reflexivity |].
  apply (X9_next_run_continues_the_line
           (mkRepo [TagReference "v1.0.0"] []) "v" "" None None
           (mkVersion 1 0 1 None None) "v1.0.1").
  - reflexivity.
  - intros _. exact I.
  - reflexivity.
  - reflexivity.
Defined.

(** The same tags listed in another order, one of them twice, beside a
    branch, with other remotes. *)
Lemma X10_reordered_tags :
  let repo := mkRepo [TagReference "v1.0.0"; TagReference "v1.1.0"] [] in
  let repo' := mkRepo [TagReference "v1.1.0"; Head "main";
                       TagReference "v1.0.0"; TagReference "v1.1.0"]
                      ["origin"] in
  next_version repo "v" "" None None = next_version repo' "v" "" None None
  /\ stdout (trace (calculate_new_version repo "v" "" None None
                      true false false false))
     = stdout (trace (calculate_new_version repo' "v" "" None None
                        true false false false)).
Proof.
  cbv zeta.
  destruct (X10_same_tags_same_selection
              (mkRepo [TagReference "v1.0.0"; TagReference "v1.1.0"] [])
              (mkRepo [TagReference "v1.1.0"; Head "main";
                       TagReference "v1.0.0"; TagReference "v1.1.0"]
                      ["origin"])
              "v" "" None None false)
    as [Hnext [_ [_ Hrun]]].
  - intros name. simpl. intuition discriminate.
  - split; [exact Hnext |]. apply (Hrun false).
Defined.

(** The set 1.0.0, 1.1.0, 2.0.0: what major 1 keeps is a set, and major 1
    and then minor 1 keeps 1.1.0. *)
Lemma X11_filter_by_steps :
  let versions :=
    [mkVersion 1 0 0 None None; mkVersion 1 1 0 None None;
     mkVersion 2 0 0 None None] in
  Spec.is_set (filter_versions versions (Some 1%Z) None)
  /\ In (mkVersion 1 1 0 None None)
        (filter_versions (filter_versions versions (Some 1%Z) None)
                         (Some 1%Z) (Some 1%Z)).
Proof.
  cbv zeta.
  assert (Hset : Spec.is_set
                   [mkVersion 1 0 0 None None; mkVersion 1 1 0 None None;
                    mkVersion 2 0 0 None None]).
  { unfold Spec.is_set. simpl.
    repeat constructor; simpl; intuition discriminate. }
  destruct (X11_filter_again_and_by_steps _ Hset) as [Hs [_ Hsteps]].
  split; [apply Hs |]. apply Hsteps. vm_compute. left. reflexivity.
Defined.

(** The affixes [release-] and [-final]. *)
Lemma X13_release_final :
  let name :=
    generate_version_name (mkVersion 1 2 4 None None) "release-" "-final"
      false (Some "SNAPSHOT") in
  name = "release-1.2.4-final"
  /\ extracted_version name "release-" "-final" = "1.2.4"
  /\ Semver.parse (extracted_version name "release-" "-final")
     = Some (mkVersion 1 2 4 None None).
Proof.
  cbv zeta. split; [reflexivity |].
  destruct (X13_safe_affixes_read_back (mkVersion 1 2 4 None None)
              "release-" "-final" (Some "SNAPSHOT") eq_refl eq_refl)
    as [_ [Hex Hparse]].
  - right. exists "r"%char. repeat split; reflexivity.
  - reflexivity.
  - split; [rewrite Hex; reflexivity | exact Hparse].
Defined.

(** Two snapshot runs in a row. *)
Lemma X15_snapshot_twice :
  let repo := mkRepo [TagReference "v1.0.0"] ["origin"] in
  let repo' := Spec.with_tag repo "v1.0-SNAPSHOT" in
  let run := calculate_new_version repo' "v" "" None None
               false false true false in
  created_tags
    (trace (calculate_new_version repo "v" "" None None
              false false true false)) = ["v1.0-SNAPSHOT"]
  /\ result run = Exit 1
  /\ created_tags (trace run) = [].
Proof.
  cbv zeta. split; [reflexivity |].
  destruct (X15_second_snapshot_run_collides
              (mkRepo [TagReference "v1.0.0"] ["origin"]) "v" "" None None
              false false "v1.0-SNAPSHOT" eq_refl)
    as [_ [Hr [_ [Hc _]]]].
  - right. reflexivity.
  - split; assumption.
Defined.

End FurtherInstances.
